(** * thanos-parquet-gateway: process wiring and block conversion

    A shallow embedding of [cmd/config.go] (the setup functions that wire
    the bucket, the discoverers, the meta filter, the syncer and the
    internal API into a [run.Group]) and of the checks of
    [convert/convert_test.go], together with the properties the
    specification states about them. *)

From Stdlib Require Import ZArith Lia Ascii.
From Stdlib Require String.
From stdpp Require Import base tactics option list sorting strings gmap.

Local Open Scope Z_scope.

(** ** Go values used by the wiring code *)

(** [time.Duration]: a number of nanoseconds. *)
Definition Duration := Z.

(** Go errors.  [fmt.Errorf] with a [%s] verb yields a plain message,
    with a [%w] verb it wraps its cause; errors made by the packages
    the file calls are opaque messages. *)
Inductive error : Type :=
| Foreign (msg : string)
| Errorf (msg : string)
| Wrapf (msg : string) (cause : error).

Fixpoint Error (e : error) : string :=
  match e with
  | Foreign m => m
  | Errorf m => m
  | Wrapf m c => m +:+ Error c
  end.

(** A Go [(T, error)] result in which exactly one side is set. *)
Inductive result (A : Type) : Type :=
| Ok (a : A)
| Err (e : error).
Arguments Ok {A} a.
Arguments Err {A} e.

(** [context.Context], by the way it was derived. *)
Inductive Context : Type :=
| Background
| WithCancel (parent : Context)
| WithTimeout (parent : Context) (d : Duration).

(** [expired t ctx]: [ctx] is done once [t] nanoseconds have passed since
    it was derived, because its own timeout or one of its parents' ran
    out (a parent is at least as old as its child). *)
Fixpoint expired (t : Duration) (ctx : Context) : bool :=
  match ctx with
  | Background => false
  | WithCancel p => expired t p
  | WithTimeout p d => (d <=? t) || expired t p
  end.

(** ** strings.ToUpper *)

Module Strings.

(** [c < utf8.RuneSelf] *)
Definition isASCIIByte (c : ascii) : bool := (N_of_ascii c <? 128)%N.

(** ['a' <= c && c <= 'z'] *)
Definition isLower (c : ascii) : bool :=
  ((97 <=? N_of_ascii c) && (N_of_ascii c <=? 122))%N.

Definition isUpper (c : ascii) : bool :=
  ((65 <=? N_of_ascii c) && (N_of_ascii c <=? 90))%N.

(** [c -= 'a' - 'A'] for a lower-case letter *)
Definition upperByte (c : ascii) : ascii :=
  if isLower c then ascii_of_N (N_of_ascii c - 32) else c.

Definition lowerByte (c : ascii) : ascii :=
  if isUpper c then ascii_of_N (N_of_ascii c + 32) else c.

Fixpoint isASCII (s : string) : bool :=
  match s with
  | EmptyString => true
  | String c s' => isASCIIByte c && isASCII s'
  end.

Fixpoint mapBytes (f : ascii -> ascii) (s : string) : string :=
  match s with
  | EmptyString => EmptyString
  | String c s' => String (f c) (mapBytes f s')
  end.

(** [strings.ToUpper]: a string of ASCII bytes only has its letters
    [a]-[z] replaced; any other string goes through
    [strings.Map(unicode.ToUpper, s)], which is the argument
    [unicodeUpper]. *)
Definition ToUpper (unicodeUpper : string -> string) (s : string) : string :=
  if isASCII s then mapBytes upperByte s else unicodeUpper s.

(** Equality up to letter case: the two strings have the same bytes
    once the letters [A]-[Z] are replaced by [a]-[z]. *)
Definition EqualFold (s t : string) : Prop :=
  mapBytes lowerByte s = mapBytes lowerByte t.

End Strings.

(** Decimal rendering of a non-negative [int], the [%d] verb. *)
Module Decimal.

Definition digit (n : nat) : ascii := ascii_of_nat (48 + n).

Fixpoint render (fuel n : nat) (acc : string) : string :=
  match fuel with
  | O => acc
  | S fuel' =>
      let acc' := String (digit (n mod 10)) acc in
      match (n / 10)%nat with
      | O => acc'
      | q => render fuel' q acc'
      end
  end.

Definition itoa (n : nat) : string := render (S n) n EmptyString.

(** Reading decimal digits, most significant first, after [a]. *)
Fixpoint parse (a : nat) (s : string) : nat :=
  match s with
  | EmptyString => a
  | String c s' => parse (10 * a + (nat_of_ascii c - 48)) s'
  end.

End Decimal.

(** ** Data of the catalog *)

(** Modelled from the spec: [locate.Meta] is not among the sources; the
    commit record of a converted block has its name, the least and the
    greatest timestamp of its samples, the number of its shards, its
    external labels and the version of its schema. *)
Record Meta : Type := {
  metaName : string;
  metaMint : Z;
  metaMaxt : Z;
  metaShards : Z;
  metaLabels : list (string * string);
  metaVersion : Z;
}.

Abbreviation Metas := (gmap string Meta).

(** ** Options of the setup functions *)

Record bucketOpts : Type := {
  storage : string;
  prefix : string;
  filesystemDirectory : string;
  s3Bucket : string;
  s3Endpoint : string;
  s3AccessKey : string;
  s3SecretKey : string;
  s3Insecure : bool;
  retries : Z;
}.

(** [opts] with its [storage] field set to [name]. *)
Definition withStorage (name : string) (opts : bucketOpts) : bucketOpts :=
  {| storage := name; prefix := prefix opts;
     filesystemDirectory := filesystemDirectory opts;
     s3Bucket := s3Bucket opts; s3Endpoint := s3Endpoint opts;
     s3AccessKey := s3AccessKey opts; s3SecretKey := s3SecretKey opts;
     s3Insecure := s3Insecure opts; retries := retries opts |}.

Record apiOpts : Type := {
  port : nat;
  shutdownTimeout : Duration;
}.

Record discoveryOpts : Type := {
  discoveryInterval : Duration;
  discoveryConcurrency : Z;
}.

Record tsdbDiscoveryOpts (Matcher : Type) : Type := {
  tsdbDiscoveryInterval : Duration;
  tsdbDiscoveryConcurrency : Z;
  tsdbDiscoveryMinBlockAge : Duration;
  externalLabelMatchers : list Matcher;
}.
Arguments tsdbDiscoveryInterval {Matcher} _.
Arguments tsdbDiscoveryConcurrency {Matcher} _.
Arguments tsdbDiscoveryMinBlockAge {Matcher} _.
Arguments externalLabelMatchers {Matcher} _.

Record syncerOpts : Type := {
  syncerInterval : Duration;
  syncerConcurrency : Z;
  syncerReadBufferSize : Z;
  syncerLabelFilesDir : string;
  filterType : string;
  filterThanosBackfillEndpoint : string;
  filterThanosBackfillUpdateInterval : Duration;
  filterThanosBackfillOverlap : Duration;
}.

(** ** Values built by the setup functions *)

(** [objstore.ObjProvider] and the two constants the switch of
    [setupBucket] names. *)
Definition ObjProvider := string.
Definition FILESYSTEM : ObjProvider := "FILESYSTEM".
Definition S3 : ObjProvider := "S3".

(** The anonymous structs assigned to [subCfg]. *)
Inductive SubConfig : Type :=
| FilesystemConfig (Directory : string)
| S3Config (Bucket Endpoint AccessKey SecretKey : string)
           (MaxRetries : Z) (Insecure : bool).

(** [client.BucketConfig] *)
Record BucketConfig : Type := {
  cfgType : ObjProvider;
  cfgPrefix : string;
  cfgConfig : SubConfig;
}.

(** [*locate.Discoverer], by the arguments of [locate.NewDiscoverer]:
    package [locate] is not among the sources, and what its values do
    is left to [Externals] below. *)
Record Discoverer (Bucket : Type) : Type := {
  discBucket : Bucket;
  discMetaConcurrency : Z;
}.
Arguments discBucket {Bucket} _.
Arguments discMetaConcurrency {Bucket} _.

(** [locate.NewDiscoverer(bkt, locate.MetaConcurrency(n))] *)
Definition NewDiscoverer {Bucket : Type} (bkt : Bucket) (n : Z)
  : Discoverer Bucket :=
  {| discBucket := bkt; discMetaConcurrency := n |}.

(** [*locate.TSDBDiscoverer], by the arguments of
    [locate.NewTSDBDiscoverer]. *)
Record TSDBDiscoverer (Bucket Matcher : Type) : Type := {
  tsdbBucket : Bucket;
  tsdbMetaConcurrency : Z;
  tsdbMinBlockAge : Duration;
  tsdbMatchExternalLabels : list Matcher;
}.
Arguments tsdbBucket {Bucket Matcher} _.
Arguments tsdbMetaConcurrency {Bucket Matcher} _.
Arguments tsdbMinBlockAge {Bucket Matcher} _.
Arguments tsdbMatchExternalLabels {Bucket Matcher} _.

(** [locate.NewTSDBDiscoverer(bkt, locate.TSDBMetaConcurrency(n),
    locate.TSDBMinBlockAge(age), locate.TSDBMatchExternalLabels(ms...))] *)
Definition NewTSDBDiscoverer {Bucket Matcher : Type} (bkt : Bucket) (n : Z)
  (age : Duration) (ms : list Matcher) : TSDBDiscoverer Bucket Matcher :=
  {| tsdbBucket := bkt; tsdbMetaConcurrency := n; tsdbMinBlockAge := age;
     tsdbMatchExternalLabels := ms |}.

(** [*locate.ThanosBackfillMetaFilter], by the arguments of
    [locate.NewThanosBackfillMetaFilter]. *)
Record ThanosBackfill : Type := {
  backfillEndpoint : string;
  backfillOverlap : Duration;
}.

Definition NewThanosBackfillMetaFilter (endpoint : string) (overlap : Duration)
  : ThanosBackfill :=
  {| backfillEndpoint := endpoint; backfillOverlap := overlap |}.

(** [locate.MetaFilter]: the two implementations [setupMetaFilter]
    returns. *)
Inductive MetaFilter : Type :=
| AllMetasMetaFilter
| ThanosBackfillMetaFilter (f : ThanosBackfill).

(** [*locate.Syncer], by the arguments of [locate.NewSyncer]. *)
Record Syncer (Bucket : Type) : Type := {
  syncBucket : Bucket;
  syncFilterMetas : MetaFilter;
  syncBlockConcurrency : Z;
  syncReadBufferSize : Z;
  syncLabelFilesDir : string;
}.
Arguments syncBucket {Bucket} _.
Arguments syncFilterMetas {Bucket} _.
Arguments syncBlockConcurrency {Bucket} _.
Arguments syncReadBufferSize {Bucket} _.
Arguments syncLabelFilesDir {Bucket} _.

(** [locate.NewSyncer(bkt, locate.FilterMetas(f), locate.BlockConcurrency(n),
    locate.BlockOptions(locate.ReadBufferSize(sz), locate.LabelFilesDir(dir)))] *)
Definition NewSyncer {Bucket : Type} (bkt : Bucket) (f : MetaFilter) (n sz : Z)
  (dir : string) : Syncer Bucket :=
  {| syncBucket := bkt; syncFilterMetas := f; syncBlockConcurrency := n;
     syncReadBufferSize := sz; syncLabelFilesDir := dir |}.

(** ** Logging *)

Inductive Level : Type := LevelDebug | LevelInfo | LevelWarn | LevelError.

Inductive Attr : Type :=
| AttrAny (key : string) (err : error)
| AttrInt (key : string) (n : Z).

(** One record handed to the [*slog.Logger]. *)
Record LogRecord : Type := {
  recLevel : Level;
  recMsg : string;
  recAttrs : list Attr;
}.

(** ** net/http *)

Module Http.

Definition StatusOK : Z := 200.

Record Request : Type := {
  reqMethod : string;
  reqPath : string;
  reqBody : string;
}.

(** The state behind an [http.ResponseWriter]. *)
Record ResponseWriter : Type := {
  wroteHeader : bool;
  status : Z;
  body : string;
}.

(** The writer the server hands to a handler. *)
Definition newResponse : ResponseWriter :=
  {| wroteHeader := false; status := 0; body := "" |}.

(** [w.WriteHeader(code)]: only the first call sets the status. *)
Definition WriteHeader (code : Z) (w : ResponseWriter) : ResponseWriter :=
  if wroteHeader w then w
  else {| wroteHeader := true; status := code; body := body w |}.

(** [w.Write(b)]: writes the header with [StatusOK] first when no
    header was written. *)
Definition Write (b : string) (w : ResponseWriter) : ResponseWriter :=
  let w1 := WriteHeader StatusOK w in
  {| wroteHeader := wroteHeader w1; status := status w1;
     body := body w1 +:+ b |}.

(** [fmt.Fprintf(w, format)] with a format without verbs. *)
Definition Fprintf (format : string) (w : ResponseWriter) : ResponseWriter :=
  Write format w.

(** [func(w http.ResponseWriter, r *http.Request)] *)
Definition HandlerFunc := ResponseWriter -> Request -> ResponseWriter.

(** [*http.ServeMux]: the registered patterns, the latest last. *)
Definition ServeMux := list (string * HandlerFunc).

Definition NewServeMux : ServeMux := [].

Definition HandleFunc (pattern : string) (h : HandlerFunc) (mux : ServeMux)
  : ServeMux := mux ++ [(pattern, h)].

(** The handler registered under exactly this pattern. *)
Fixpoint registered (pattern : string) (mux : ServeMux) : option HandlerFunc :=
  match mux with
  | [] => None
  | (p, h) :: mux' =>
      if String.eqb p pattern then Some h else registered pattern mux'
  end.

(** [http.Server] *)
Record Server : Type := {
  Addr : string;
  Handler : ServeMux;
}.

End Http.

(** ** What [config.go] calls but does not define

    The packages behind the setup functions are taken as they are: the
    object-storage client, the YAML encoder, the discoverers, the
    backfill filter, the syncer and the debug handlers.  [World] is
    whatever state they keep or reach (object storage, the remote
    endpoint, their own snapshots, what they log on their own). *)
Record Externals : Type := {
  Bucket : Type;
  Matcher : Type;
  Registry : Type;
  World : Type;
  unicodeUpper : string -> string;
  yamlMarshal : BucketConfig -> result string;
  clientNewBucket : string -> string -> World -> result Bucket * World;
  discovererDiscover :
    Discoverer Bucket -> Context -> World -> option error * World;
  discovererMetas : Discoverer Bucket -> World -> Metas;
  tsdbDiscovererDiscover :
    TSDBDiscoverer Bucket Matcher -> Context -> World -> option error * World;
  backfillUpdate : ThanosBackfill -> Context -> World -> option error * World;
  syncerSync :
    Syncer Bucket -> Context -> Metas -> World -> option error * World;
  pprofIndex : Http.HandlerFunc;
  pprofProfile : Http.HandlerFunc;
  pprofSymbol : Http.HandlerFunc;
  pprofTrace : Http.HandlerFunc;
  promhttpHandlerFor : Registry -> Http.HandlerFunc;
}.

(** ** State threaded through the setup functions *)

(** A call that left the file, with the context it was given. *)
Inductive Call : Type :=
| CallNewBucket (conf component : string)
| CallDiscover (ctx : Context)
| CallTSDBDiscover (ctx : Context)
| CallUpdate (ctx : Context)
| CallSync (ctx : Context).

Definition callCtx (c : Call) : option Context :=
  match c with
  | CallNewBucket _ _ => None
  | CallDiscover ctx | CallTSDBDiscover ctx | CallUpdate ctx | CallSync ctx =>
      Some ctx
  end.

(** What a function of the file can change: the world of its
    collaborators and the records written to the logger; [calls] is a
    ghost trace of the calls made so far. *)
Record St (E : Externals) : Type := {
  world : World E;
  logs : list LogRecord;
  calls : list Call;
}.
Arguments world {E} _.
Arguments logs {E} _.
Arguments calls {E} _.

(** State-passing computations. *)
Definition M (S A : Type) : Type := S -> A * S.

Definition ret {S A : Type} (a : A) : M S A := fun s => (a, s).

Definition bind {S A B : Type} (m : M S A) (k : A -> M S B) : M S B :=
  fun s => let '(a, s') := m s in k a s'.

Declare Scope go_scope.
Delimit Scope go_scope with go.
Notation "x <~ m ; k" := (bind m (fun x => k))
  (at level 200, m at level 100, k at level 200, right associativity,
   only parsing) : go_scope.
Notation "m >> k" := (bind m (fun _ => k))
  (at level 200, k at level 200, right associativity, only parsing) : go_scope.
Local Open Scope go_scope.

(** The two parts of an actor of [run.Group]. *)
Inductive Execute (E : Externals) : Type :=
| ExecRepeat (interval : Duration) (stopc : Context)
             (f : M (St E) (option error))
| ExecListenAndServe (port : nat) (server : Http.Server).
Arguments ExecRepeat {E} _ _ _.
Arguments ExecListenAndServe {E} _ _.

Inductive Interrupt : Type :=
| IntrCancel (msg : string) (ctx : Context)
| IntrShutdown (port : nat) (timeout : Duration).

Record Actor (E : Externals) : Type := {
  execute : Execute E;
  interrupt : Interrupt;
}.
Arguments execute {E} _.
Arguments interrupt {E} _.

(** The state of a setup function: [St] and the [*run.Group] it is
    given. *)
Record Env (E : Externals) : Type := {
  st : St E;
  group : list (Actor E);
}.
Arguments st {E} _.
Arguments group {E} _.

(** ** runutil.Repeat *)

(** What the [select] of [Repeat] sees after an iteration. *)
Inductive Event : Type := Tick | Stop.

Inductive Outcome : Type :=
| Returned (err : option error)
| Waiting.

(** [runutil.Repeat(interval, stopc, f)]: run [f]; return its error if
    it has one; otherwise wait for the stop channel (return nil) or the
    ticker (go round again).  [sched] is what the [select] receives,
    iteration after iteration; when it ends the loop is left waiting. *)
Fixpoint Repeat {S : Type} (f : M S (option error)) (sched : list Event)
  : M S Outcome :=
  fun s =>
    let '(err, s1) := f s in
    match err with
    | Some e => (Returned (Some e), s1)
    | None =>
        match sched with
        | [] => (Waiting, s1)
        | Stop :: _ => (Returned None, s1)
        | Tick :: sched' => Repeat f sched' s1
        end
    end.

Section Wiring.

Context (E : Externals).

Definition lift {A : Type} (m : M (St E) A) : M (Env E) A :=
  fun env =>
    let '(a, s') := m (st env) in (a, {| st := s'; group := group env |}).

(** [g.Add(execute, interrupt)] *)
Definition groupAdd (a : Actor E) : M (Env E) unit :=
  fun env => (tt, {| st := st env; group := group env ++ [a] |}).

Definition logAt (l : Level) (msg : string) (attrs : list Attr)
  : M (St E) unit :=
  fun s =>
    (tt, {| world := world s;
            logs := logs s ++
              [{| recLevel := l; recMsg := msg; recAttrs := attrs |}];
            calls := calls s |}).

Definition logDebug := logAt LevelDebug.
Definition logInfo := logAt LevelInfo.
Definition logWarn := logAt LevelWarn.

(** Run a collaborator on the world and note the call. *)
Definition external {A : Type} (c : Call) (f : World E -> A * World E)
  : M (St E) A :=
  fun s =>
    let '(a, w) := f (world s) in
    (a, {| world := w; logs := logs s; calls := calls s ++ [c] |}).

Definition NewBucket (conf component : string) : M (St E) (result (Bucket E)) :=
  external (CallNewBucket conf component) (clientNewBucket E conf component).

Definition Discover (d : Discoverer (Bucket E)) (ctx : Context)
  : M (St E) (option error) :=
  external (CallDiscover ctx) (discovererDiscover E d ctx).

Definition TSDBDiscover (d : TSDBDiscoverer (Bucket E) (Matcher E))
  (ctx : Context) : M (St E) (option error) :=
  external (CallTSDBDiscover ctx) (tsdbDiscovererDiscover E d ctx).

Definition Update (f : ThanosBackfill) (ctx : Context)
  : M (St E) (option error) :=
  external (CallUpdate ctx) (backfillUpdate E f ctx).

(** [syncer.Sync(ctx, discoverer.Metas())] *)
Definition Sync (sy : Syncer (Bucket E)) (ctx : Context)
  (d : Discoverer (Bucket E)) : M (St E) (option error) :=
  external (CallSync ctx)
    (fun w => syncerSync E sy ctx (discovererMetas E d w) w).

(** *** setupBucket *)

Definition subConfigFor (prov : ObjProvider) (opts : bucketOpts)
  : option SubConfig :=
  if String.eqb prov FILESYSTEM then
    Some (FilesystemConfig (filesystemDirectory opts))
  else if String.eqb prov S3 then
    Some (S3Config (s3Bucket opts) (s3Endpoint opts) (s3AccessKey opts)
            (s3SecretKey opts) (retries opts) (s3Insecure opts))
  else None.

Definition setupBucket (opts : bucketOpts) : M (St E) (result (Bucket E)) :=
  let prov : ObjProvider := Strings.ToUpper (unicodeUpper E) (storage opts) in
  match subConfigFor prov opts with
  | None => ret (Err (Errorf ("unknown bucket type: " +:+ prov)))
  | Some subCfg =>
      let cfg :=
        {| cfgType := prov; cfgPrefix := prefix opts; cfgConfig := subCfg |} in
      match yamlMarshal E cfg with
      | Err err =>
          ret (Err (Wrapf "unable to marshal bucket config yaml: " err))
      | Ok bytes =>
          r <~ NewBucket bytes "parquet-gateway";
          match r with
          | Err err => ret (Err (Wrapf "unable to create bucket client: " err))
          | Ok bkt => ret (Ok bkt)
          end
      end
  end.

(** *** setupInternalAPI *)

(** The function literal registered under [/-/healthy] and under
    [/-/ready]. *)
Definition okHandler : Http.HandlerFunc :=
  fun w _ => Http.Fprintf "OK" (Http.WriteHeader Http.StatusOK w).

Definition internalMux (reg : Registry E) : Http.ServeMux :=
  let mux := Http.NewServeMux in
  let mux := Http.HandleFunc "/debug/pprof/" (pprofIndex E) mux in
  let mux := Http.HandleFunc "/debug/pprof/profile" (pprofProfile E) mux in
  let mux := Http.HandleFunc "/debug/pprof/symbol" (pprofSymbol E) mux in
  let mux := Http.HandleFunc "/debug/pprof/trace" (pprofTrace E) mux in
  let mux := Http.HandleFunc "/metrics" (promhttpHandlerFor E reg) mux in
  let mux := Http.HandleFunc "/-/healthy" okHandler mux in
  let mux := Http.HandleFunc "/-/ready" okHandler mux in
  mux.

Definition setupInternalAPI (reg : Registry E) (opts : apiOpts)
  : M (Env E) unit :=
  let mux := internalMux reg in
  let server :=
    {| Http.Addr := ":" +:+ Decimal.itoa (port opts); Http.Handler := mux |} in
  groupAdd {| execute := ExecListenAndServe (port opts) server;
              interrupt := IntrShutdown (port opts) (shutdownTimeout opts) |}.

(** *** setupDiscovery *)

(** The function literal handed to [runutil.Repeat]. *)
Definition discoveryIteration (ctx : Context)
  (discoverer : Discoverer (Bucket E)) (opts : discoveryOpts)
  : M (St E) (option error) :=
  logDebug "Running discovery" [] >>
  let iterCtx := WithTimeout ctx (discoveryInterval opts) in
  err <~ Discover discoverer iterCtx;
  match err with
  | Some e => logWarn "Unable to discover new blocks" [AttrAny "err" e]
  | None => ret tt
  end >>
  ret None.

Definition setupDiscovery (ctx : Context) (bkt : Bucket E)
  (opts : discoveryOpts) : M (Env E) (result (Discoverer (Bucket E))) :=
  let discoverer := NewDiscoverer bkt (discoveryConcurrency opts) in
  lift (logInfo "Running initial discovery" []) >>
  let iterCtx := WithTimeout ctx (discoveryInterval opts) in
  err <~ lift (Discover discoverer iterCtx);
  match err with
  | Some e => ret (Err (Wrapf "unable to run initial discovery: " e))
  | None =>
      let ctx := WithCancel Background in
      groupAdd
        {| execute :=
             ExecRepeat (discoveryInterval opts) ctx
               (discoveryIteration ctx discoverer opts);
           interrupt := IntrCancel "Stopping discovery" ctx |} >>
      ret (Ok discoverer)
  end.

(** *** setupTSDBDiscovery *)

Definition tsdbDiscoveryIteration (ctx : Context)
  (discoverer : TSDBDiscoverer (Bucket E) (Matcher E))
  (opts : tsdbDiscoveryOpts (Matcher E)) : M (St E) (option error) :=
  logDebug "Running tsdb discovery" [] >>
  let iterCtx := WithTimeout ctx (tsdbDiscoveryInterval opts) in
  err <~ TSDBDiscover discoverer iterCtx;
  match err with
  | Some e => logWarn "Unable to discover new tsdb blocks" [AttrAny "err" e]
  | None => ret tt
  end >>
  ret None.

Definition setupTSDBDiscovery (ctx : Context) (bkt : Bucket E)
  (opts : tsdbDiscoveryOpts (Matcher E))
  : M (Env E) (result (TSDBDiscoverer (Bucket E) (Matcher E))) :=
  let discoverer :=
    NewTSDBDiscoverer bkt (tsdbDiscoveryConcurrency opts)
      (tsdbDiscoveryMinBlockAge opts) (externalLabelMatchers opts) in
  lift (logInfo "Running initial tsdb discovery" []) >>
  let iterCtx := WithTimeout ctx (tsdbDiscoveryInterval opts) in
  err <~ lift (TSDBDiscover discoverer iterCtx);
  match err with
  | Some e => ret (Err (Wrapf "unable to run initial discovery: " e))
  | None =>
      let ctx := WithCancel Background in
      groupAdd
        {| execute :=
             ExecRepeat (tsdbDiscoveryInterval opts) ctx
               (tsdbDiscoveryIteration ctx discoverer opts);
           interrupt := IntrCancel "Stopping tsdb discovery" ctx |} >>
      ret (Ok discoverer)
  end.

(** *** setupMetaFilter *)

Definition metaFilterIteration (ctx : Context)
  (thanosBackfillMetaFilter : ThanosBackfill) (opts : syncerOpts)
  : M (St E) (option error) :=
  logDebug "Updating thanos-backfill meta filter" [] >>
  let iterCtx := WithTimeout ctx (filterThanosBackfillUpdateInterval opts) in
  err <~ Update thanosBackfillMetaFilter iterCtx;
  match err with
  | Some e =>
      logWarn "Unable to update thanos-backfill meta filter" [AttrAny "err" e]
  | None => ret tt
  end >>
  ret None.

Definition setupMetaFilter (ctx : Context) (opts : syncerOpts)
  : M (Env E) (result MetaFilter) :=
  if String.eqb (filterType opts) "all-metas" then
    ret (Ok AllMetasMetaFilter)
  else if String.eqb (filterType opts) "thanos-backfill" then
    let thanosBackfillMetaFilter :=
      NewThanosBackfillMetaFilter (filterThanosBackfillEndpoint opts)
        (filterThanosBackfillOverlap opts) in
    lift (logInfo "Initializing thanos-backfill meta filter" []) >>
    let iterCtx := WithTimeout ctx (filterThanosBackfillUpdateInterval opts) in
    err <~ lift (Update thanosBackfillMetaFilter iterCtx);
    match err with
    | Some e =>
        ret (Err (Wrapf "unable to initialize thanos-backfill meta filter: " e))
    | None =>
        let ctx := WithCancel Background in
        groupAdd
          {| execute :=
               ExecRepeat (filterThanosBackfillUpdateInterval opts) ctx
                 (metaFilterIteration ctx thanosBackfillMetaFilter opts);
             interrupt :=
               IntrCancel "Stopping thanos-backfill meta filter updates" ctx |} >>
        ret (Ok (ThanosBackfillMetaFilter thanosBackfillMetaFilter))
    end
  else
    ret (Err (Errorf ("unknown meta filter type: " +:+ filterType opts))).

(** *** setupSyncer *)

Definition syncIteration (ctx : Context) (syncer : Syncer (Bucket E))
  (discoverer : Discoverer (Bucket E)) (opts : syncerOpts)
  : M (St E) (option error) :=
  logDebug "Running sync" [] >>
  let iterCtx := WithTimeout ctx (syncerInterval opts) in
  err <~ Sync syncer iterCtx discoverer;
  match err with
  | Some e => logWarn "Unable to sync new blocks" [AttrAny "err" e]
  | None => ret tt
  end >>
  ret None.

Definition setupSyncer (ctx : Context) (bkt : Bucket E)
  (discoverer : Discoverer (Bucket E)) (metaFilter : MetaFilter)
  (opts : syncerOpts) : M (Env E) (result (Syncer (Bucket E))) :=
  let syncer :=
    NewSyncer bkt metaFilter (syncerConcurrency opts)
      (syncerReadBufferSize opts) (syncerLabelFilesDir opts) in
  lift (logInfo "Running initial sync" []) >>
  let iterCtx := WithTimeout ctx (syncerInterval opts) in
  err <~ lift (Sync syncer iterCtx discoverer);
  match err with
  | Some e => ret (Err (Wrapf "unable to run initial sync: " e))
  | None =>
      let ctx := WithCancel Background in
      groupAdd
        {| execute :=
             ExecRepeat (syncerInterval opts) ctx
               (syncIteration ctx syncer discoverer opts);
           interrupt := IntrCancel "Stopping syncer" ctx |} >>
      ret (Ok syncer)
  end.

(** *** Words of the specification about the loops *)

(** The warning a loop writes when its collaborator fails with [e]. *)
Definition warning (msg : string) (e : error) : LogRecord :=
  {| recLevel := LevelWarn; recMsg := msg; recAttrs := [AttrAny "err" e] |}.

(** [f] is the work function of a loop around the collaborator
    [collab] that swallows its failures: it always returns nil, a
    failure of the collaborator leaves the warning [msg] in the log,
    and [runutil.Repeat] around it neither returns an error nor stops
    on a tick: after [n] ticks it has called the collaborator [n + 1]
    times and waits for the next one. *)
Definition swallows (f : M (St E) (option error))
  (collab : World E -> option error * World E) (msg : string) : Prop :=
  forall s : St E,
    (f s).1 = None /\
    (forall e, (collab (world s)).1 = Some e ->
               warning msg e ∈ logs (f s).2) /\
    (forall sched e, (Repeat f sched s).1 <> Returned (Some e)) /\
    (forall n : nat,
        (Repeat f (replicate n Tick) s).1 = Waiting /\
        length (calls (Repeat f (replicate n Tick) s).2)
        = (length (calls s) + S n)%nat).

(** The actor [a] is a loop started with [interval] whose work
    function satisfies [P]. *)
Definition loopOf (interval : Duration) (interruptMsg : string)
  (P : Context -> M (St E) (option error) -> Prop) (a : Actor E) : Prop :=
  exists ctx f,
    a = {| execute := ExecRepeat interval ctx f;
           interrupt := IntrCancel interruptMsg ctx |} /\ P ctx f.

(** The call [c] was given a context made by
    [context.WithTimeout(_, d)], which is done [d] after it was made. *)
Definition underTimeout (d : Duration) (c : Call) : Prop :=
  exists parent,
    callCtx c = Some (WithTimeout parent d) /\
    forall t, d <= t -> expired t (WithTimeout parent d) = true.

(** Every call made between the states [s] and [s'] satisfies [P]. *)
Definition callsSince (s s' : St E) (P : Call -> Prop) : Prop :=
  exists new, calls s' = calls s ++ new /\ Forall P new.

(** Every iteration of [setup] runs under the timeout [d]: the calls
    it makes itself, and the calls of every run of every loop it adds
    to the group. *)
Definition iterationsUnderTimeout {A : Type} (d : Duration)
  (setup : M (Env E) A) : Prop :=
  forall env : Env E,
    callsSince (st env) (st (setup env).2) (underTimeout d) /\
    exists new,
      group (setup env).2 = group env ++ new /\
      Forall (fun a =>
                exists stopc f,
                  execute a = ExecRepeat d stopc f /\
                  forall sched s,
                    callsSince s (Repeat f sched s).2 (underTimeout d))
             new.

(** [setup] was stopped by the failure [e] of its first run: it
    returns [e] wrapped in [msg] and leaves the group as it was. *)
Definition stoppedBy {A : Type} (setup : M (Env E) (result A))
  (env : Env E) (msg : string) (e : error) : Prop :=
  (setup env).1 = Err (Wrapf msg e) /\ group (setup env).2 = group env.

(** The result is the error of the [default] branch of [setupBucket]. *)
Definition unknownBucketType {A : Type} (r : result A) : Prop :=
  exists prov, r = Err (Errorf ("unknown bucket type: " +:+ prov)).

End Wiring.

(** ** A small instance of the collaborators

    Object storage that is unreachable while the world counts [0] and
    reachable afterwards; every call advances the count. *)
Definition flaky (w : nat) : option error * nat :=
  (match w with O => Some (Foreign "bucket unreachable") | S _ => None end, S w).

Definition plainHandler : Http.HandlerFunc := fun w _ => Http.Write "" w.

Definition testExternals : Externals :=
  {| Bucket := unit;
     Matcher := unit;
     Registry := unit;
     World := nat;
     unicodeUpper := fun s => s;
     yamlMarshal := fun cfg => Ok (cfgType cfg);
     clientNewBucket := fun _ _ w => (Ok tt, S w);
     discovererDiscover := fun _ _ => flaky;
     discovererMetas := fun _ _ => ∅;
     tsdbDiscovererDiscover := fun _ _ => flaky;
     backfillUpdate := fun _ _ => flaky;
     syncerSync := fun _ _ _ => flaky;
     pprofIndex := plainHandler;
     pprofProfile := plainHandler;
     pprofSymbol := plainHandler;
     pprofTrace := plainHandler;
     promhttpHandlerFor := fun _ => plainHandler |}.

Definition testEnv (w : nat) : Env testExternals :=
  {| st := Build_St testExternals w [] []; group := [] |}.

Definition testSyncerOpts (policy : string) : syncerOpts :=
  {| syncerInterval := 60; syncerConcurrency := 1; syncerReadBufferSize := 1024;
     syncerLabelFilesDir := "";
     filterType := policy; filterThanosBackfillEndpoint := "";
     filterThanosBackfillUpdateInterval := 30;
     filterThanosBackfillOverlap := 0 |}.

Definition testBucketOpts (name : string) : bucketOpts :=
  {| storage := name; prefix := ""; filesystemDirectory := "/data";
     s3Bucket := ""; s3Endpoint := ""; s3AccessKey := ""; s3SecretKey := "";
     s3Insecure := false; retries := 2 |}.

(** ** The meta filters *)

(** Modelled from the spec: package [locate], which implements
    [MetaFilter.Filter], is not among the sources.  The accept-all filter
    is the identity; the backfill-aware filter keeps a Meta only if its
    maximum timestamp precedes the progress pointer of its last [Update]
    by at least the overlap. *)
Definition Filter (mf : MetaFilter) (pointer : Z) (metas : Metas) : Metas :=
  match mf with
  | AllMetasMetaFilter => metas
  | ThanosBackfillMetaFilter f =>
      filter (fun kv => metaMaxt kv.2 + backfillOverlap f <= pointer) metas
  end.

(** * Block conversion *)

(** ** Byte strings in their order *)

(** [bytes.Compare(s, t) <= 0], the order of Go strings and of
    [parquet.ByteArrayType.Compare]. *)
Definition bytesLe (s t : string) : Prop := String.leb s t = true.

Global Instance bytesLe_dec : RelDecision bytesLe.
Proof. intros s t. unfold bytesLe. apply _. Defined.

(** Lexicographic comparison of two lists, element by element. *)
Fixpoint lex {A : Type} (cmp : A -> A -> comparison) (l1 l2 : list A)
  : comparison :=
  match l1, l2 with
  | [], [] => Eq
  | [], _ :: _ => Lt
  | _ :: _, [] => Gt
  | x :: l1', y :: l2' =>
      match cmp x y with
      | Eq => lex cmp l1' l2'
      | c => c
      end
  end.

(** Lexicographic comparison of two lists of byte strings. *)
Definition compareKeys (k1 k2 : list string) : comparison :=
  lex String.compare k1 k2.

(** ** Prometheus labels *)

Module Labels.

Definition MetricName : string := "__name__".

(** A label is a name and a value; [Labels] are sorted by name. *)
Definition Label : Type := string * string.
Definition Labels : Type := list Label.

Definition nameLe (a b : Label) : Prop := bytesLe a.1 b.1.

Global Instance nameLe_dec : RelDecision nameLe.
Proof. intros a b. unfold nameLe. apply _. Defined.

(** [labels.FromStrings]: the pairs, sorted by name. *)
Definition FromStrings (pairs : list Label) : Labels :=
  merge_sort nameLe pairs.

(** The value of the label [name], if the set has it. *)
Fixpoint Lookup (ls : Labels) (name : string) : option string :=
  match ls with
  | [] => None
  | (n, v) :: ls' => if String.eqb n name then Some v else Lookup ls' name
  end.

(** [labels.Equal] *)
Fixpoint Equal (a b : Labels) : bool :=
  match a, b with
  | [], [] => true
  | (n1, v1) :: a', (n2, v2) :: b' =>
      String.eqb n1 n2 && String.eqb v1 v2 && Equal a' b'
  | _, _ => false
  end.

(** Names and values in a row, the way [labels.Compare] reads them. *)
Fixpoint flatten (ls : Labels) : list string :=
  match ls with
  | [] => []
  | (n, v) :: ls' => n :: v :: flatten ls'
  end.

(** The label names of [ls] that are not in [seen] yet, added to it. *)
Fixpoint addNames (ls : Labels) (seen : list string) : list string :=
  match ls with
  | [] => seen
  | (n, _) :: ls' =>
      if bool_decide (n ∈ seen) then addNames ls' seen
      else addNames ls' (seen ++ [n])
  end.

End Labels.

(** ** The test storage and its head block *)

Module TestStorage.

(** A sample: a timestamp in milliseconds and a value. *)
Definition Sample : Type := Z * Z.

Record Series : Type := {
  lset : Labels.Labels;
  samples : list Sample;
}.

(** The head block: its series, the latest first. *)
Definition Head : Type := list Series.

(** Add the sample to the series with these labels, if there is one. *)
Fixpoint addSample (l : Labels.Labels) (smp : Sample) (h : Head)
  : option Head :=
  match h with
  | [] => None
  | s :: h' =>
      if Labels.Equal (lset s) l then
        Some ({| lset := lset s; samples := smp :: samples s |} :: h')
      else
        match addSample l smp h' with
        | Some h'' => Some (s :: h'')
        | None => None
        end
  end.

(** [app.Append(0, lbls, t, v)] followed by the commit: the sample
    goes to the series with these labels, which is made if need be.
    What the head keeps of samples appended again for a timestamp is
    left out: the series is all that is read below. *)
Definition Append (l : Labels.Labels) (t v : Z) (h : Head) : Head :=
  match addSample l (t, v) h with
  | Some h' => h'
  | None => {| lset := l; samples := [(t, v)] |} :: h
  end.

Definition NumSeries (h : Head) : nat := length h.

Definition MaxInt64 : Z := 9223372036854775807.

(** [h.MinTime()]: the least timestamp in the head. *)
Definition MinTime (h : Head) : Z :=
  foldr Z.min MaxInt64 (s ← h; fst <$> samples s).

End TestStorage.

(** ** Parquet files *)

Module Parquet.

(** A value of a label column: null, or a byte array. *)
Definition Value : Type := option string.

(** [v.ByteArray()]: a null has no bytes. *)
Definition bytesOf (v : Value) : string := default "" v.

(** [parquet.ByteArrayType.Compare(v1, v2) <= 0] *)
Definition valueLe (v1 v2 : Value) : Prop := bytesLe (bytesOf v1) (bytesOf v2).

Global Instance valueLe_dec : RelDecision valueLe.
Proof. intros a b. unfold valueLe. apply _. Defined.

Definition Page : Type := list Value.

(** The column index of a column chunk: one entry per page. *)
Record ColumnIndex : Type := {
  NullPages : list bool;
  MinValues : list string;
  MaxValues : list string;
}.

Record ColumnChunk : Type := {
  Pages : list Page;
  Index : ColumnIndex;
}.

Record RowGroup : Type := {
  NumRows : nat;
  ColumnChunks : list ColumnChunk;
}.

Record File : Type := {
  Schema : list string;
  RowGroups : list RowGroup;
}.

(** [pf.NumRows()] *)
Definition FileNumRows (pf : File) : nat :=
  sum_list (NumRows <$> RowGroups pf).

(** [pf.Schema().Lookup(column)]: the index of the column. *)
Fixpoint indexOf (column : string) (schema : list string) : option nat :=
  match schema with
  | [] => None
  | c :: schema' =>
      if String.eqb c column then Some O else S <$> indexOf column schema'
  end.

Definition SchemaLookup (pf : File) (column : string) : option nat :=
  indexOf column (Schema pf).

Definition NumPages (cidx : ColumnIndex) : nat := length (MinValues cidx).

Definition minBytes (s t : string) : string := if String.leb s t then s else t.
Definition maxBytes (s t : string) : string := if String.leb s t then t else s.

(** The least and the greatest of the non-null values of a page, the
    empty byte array for a page of nulls. *)
Definition pageMin (p : Page) : string :=
  match omap id p with
  | [] => ""
  | v :: vs => foldr minBytes v vs
  end.

Definition pageMax (p : Page) : string :=
  match omap id p with
  | [] => ""
  | v :: vs => foldr maxBytes v vs
  end.

Definition nullPage (p : Page) : bool :=
  match omap id p with [] => true | _ :: _ => false end.

Definition indexPages (ps : list Page) : ColumnIndex :=
  {| NullPages := nullPage <$> ps;
     MinValues := pageMin <$> ps;
     MaxValues := pageMax <$> ps |}.

(** [cidx.IsAscending()]: the boundary order the writer recorded.  A
    column of no page or one page is never indexed as ascending. *)
Definition IsAscending (cidx : ColumnIndex) : bool :=
  bool_decide (1 < NumPages cidx)%nat
  && bool_decide (StronglySorted bytesLe (MinValues cidx))
  && bool_decide (StronglySorted bytesLe (MaxValues cidx)).

End Parquet.

(** ** The converter

    [ConvertTSDBBlock] and the writers behind it are not among the
    sources: what follows is the algorithm of the specification, step
    by step. *)

Module Convert.
Import TestStorage Parquet.

(** Modelled from the spec: the interface [Convertible] of a source
    block is not among the sources; the converter reads the series of
    the block, with their labels and samples. *)
Definition Convertible : Type := Head.

(** The options of the test: [SortBy], [RowGroupSize], [RowGroupCount]
    and [LabelPageBufferSize].  The spec reads them as the sort key, the
    cap on the rows of a row group, the target number of shards and the
    byte threshold of the page buffer of a label column. *)
Record Options : Type := {
  sortBy : list string;
  rowGroupSize : nat;
  rowGroupCount : nat;
  labelPageBufferSize : nat;
}.

Definition dayMillis : Z := 86400000.

(** Modelled from the spec: [util.BeginOfDay] is not among the sources;
    blocks are of day granularity, so it is the start of the UTC day of
    a time, on milliseconds since the epoch. *)
Definition BeginOfDay (t : Z) : Z := t - t mod dayMillis.

(** Modelled from the spec: [schema.LabelIndexColumn] is not among the
    sources; it is the name of the column that joins a row to its
    chunks. *)
Definition LabelIndexColumn : string := "___cf_meta_index".

(** Modelled from the spec: [schema.LabelNameToColumn] is not among the
    sources; every label has a column, named after the label. *)
Definition LabelNameToColumn (name : string) : string :=
  "___cf_meta_label_" +:+ name.

(** Modelled from the spec: the chunk file of a shard holds, per row
    group and row, the reference of the row and the samples of its
    series within the day. *)
Record ChunkRow : Type := {
  chunkIndex : nat;
  chunkSamples : list Sample;
}.

Record ChunkFile : Type := {
  ChunkRowGroups : list (list ChunkRow);
}.

Definition ChunkFileNumRows (cf : ChunkFile) : nat :=
  sum_list (length <$> ChunkRowGroups cf).

(** Modelled from the spec: what object storage holds under a key, a
    file of a shard or the Meta of a block. *)
Inductive Object : Type :=
| ObjLabels (pf : File)
| ObjChunks (cf : ChunkFile)
| ObjMeta (m : Meta).

Abbreviation BucketState := (gmap string Object).

(** Modelled from the spec: package [schema], which derives the names
    of the objects of a block, is not among the sources; the name of a
    block is derived from its day. *)
Definition BlockNameForDay (day : Z) : string :=
  Decimal.itoa (Z.to_nat (day / dayMillis)).

(** Modelled from the spec: the name of the Meta file of a block is
    derived from the name of the block. *)
Definition MetaFileNameForBlock (name : string) : string :=
  name +:+ "/meta.pb".

(** Modelled from the spec: [schema.LabelsPfileNameForShard] is not
    among the sources; the name is derived from the name of the block
    and the index of the shard. *)
Definition LabelsPfileNameForShard (name : string) (shard : nat) : string :=
  name +:+ "/" +:+ Decimal.itoa shard +:+ ".labels.parquet".

(** Modelled from the spec: [schema.ChunksPfileNameForShard] is not
    among the sources; the name is derived as for the label file. *)
Definition ChunksPfileNameForShard (name : string) (shard : nat) : string :=
  name +:+ "/" +:+ Decimal.itoa shard +:+ ".chunks.parquet".

(** *** Step 1: the series of the day, one per label set *)

(** Modelled from the spec: a sample falls within the day. *)
Definition inDay (day : Z) (smp : Sample) : Prop :=
  day <= smp.1 < day + dayMillis.

Global Instance inDay_dec (day : Z) (smp : Sample) : Decision (inDay day smp).
Proof. unfold inDay. apply _. Defined.

(** Modelled from the spec: the data of a series that falls within the
    day. *)
Definition withinDay (day : Z) (s : Series) : Series :=
  {| lset := lset s; samples := filter (inDay day) (samples s) |}.

(** Modelled from the spec: the series has data. *)
Definition hasSamples (s : Series) : bool :=
  match samples s with [] => false | _ :: _ => true end.

(** Modelled from the spec: add a series to those collected so far; a
    series with the same label set takes its samples. *)
Fixpoint mergeSeries (s : Series) (acc : list Series) : list Series :=
  match acc with
  | [] => [s]
  | s' :: acc' =>
      if Labels.Equal (lset s') (lset s) then
        {| lset := lset s'; samples := samples s' ++ samples s |} :: acc'
      else s' :: mergeSeries s acc'
  end.

(** Modelled from the spec: step 1 of the converter enumerates the
    series of all the blocks whose data falls within the day and merges
    those with identical label sets. *)
Definition collect (day : Z) (blocks : list Convertible) : list Series :=
  foldl (fun acc s => mergeSeries s acc) []
    (List.filter hasSamples (withinDay day <$> concat blocks)).

(** *** Steps 2 and 3: shards, and the order of the rows in them *)

(** Modelled from the spec: what a row is sorted by, the values of the
    sort-key labels (no bytes for a label the series lacks), then the
    label set. *)
Definition rowKey (sortBy : list string) (s : Series) : list string :=
  ((fun name => bytesOf (Labels.Lookup (lset s) name)) <$> sortBy)
    ++ Labels.flatten (lset s).

(** Modelled from the spec: the order of the rows of a shard. *)
Definition rowLe (sortBy : list string) (s1 s2 : Series) : Prop :=
  compareKeys (rowKey sortBy s1) (rowKey sortBy s2) <> Gt.

Global Instance rowLe_dec (sortBy : list string) : RelDecision (rowLe sortBy).
Proof. intros a b. unfold rowLe. apply _. Defined.

(** Modelled from the spec: the rows, sorted. *)
Definition sortRows (sortBy : list string) (rows : list Series) : list Series :=
  merge_sort (rowLe sortBy) rows.

(** Modelled from the spec: [k] contiguous ranges of [l], nearly equal
    in size. *)
Fixpoint splitInto {A : Type} (k : nat) (l : list A) : list (list A) :=
  match k with
  | O => []
  | S k' =>
      let n := ((length l + k') / S k')%nat in
      take n l :: splitInto k' (drop n l)
  end.

(** Modelled from the spec: step 2 partitions the series into the
    target number of shards, by contiguous ranges of the sorted series
    (one of the two ways the spec names); step 3 sorts the rows of
    each shard by the sort key, ties broken by the label set. *)
Definition shardRows (opts : Options) (series : list Series)
  : list (list Series) :=
  sortRows (sortBy opts)
    <$> splitInto (rowGroupCount opts) (sortRows (sortBy opts) series).

(** *** Step 4: the label file *)

(** Modelled from the spec: cut [l] into batches; an element goes to
    the buffer, and the buffer is flushed as soon as [full] says so of
    what it has cost. *)
Fixpoint batches {A : Type} (cost : A -> nat) (full : nat -> bool)
  (buf : list A) (used : nat) (l : list A) : list (list A) :=
  match l with
  | [] => match buf with [] => [] | _ :: _ => [reverse buf] end
  | x :: l' =>
      let used' := (used + cost x)%nat in
      if full used' then reverse (x :: buf) :: batches cost full [] O l'
      else batches cost full (x :: buf) used' l'
  end.

(** Modelled from the spec: row groups, capped at [size] rows. *)
Definition rowGroupsOf {A : Type} (size : nat) (rows : list A) : list (list A) :=
  batches (fun _ => 1%nat) (fun used => bool_decide (size <= used)%nat) [] O rows.

(** Modelled from the spec: pages, flushed when the buffered bytes
    exceed [limit]. *)
Definition pagesOf (limit : nat) (values : list Value) : list Page :=
  batches (fun v => String.length (bytesOf v))
    (fun used => bool_decide (limit < used)%nat) [] O values.

(** Modelled from the spec: a column chunk, its pages and their
    bounds. *)
Definition writeColumn (limit : nat) (values : list Value) : ColumnChunk :=
  let pages := pagesOf limit values in
  {| Pages := pages; Index := indexPages pages |}.

(** Modelled from the spec: the positions in the shard of the rows of
    each row group, the references of the label-index column. *)
Fixpoint positions {A : Type} (start : nat) (groups : list (list A))
  : list (list nat) :=
  match groups with
  | [] => []
  | g :: groups' => seq start (length g) :: positions (start + length g) groups'
  end.

(** Modelled from the spec: the label names of the rows, in the order
    they are met; each names a column. *)
Definition labelNames (rows : list Series) : list string :=
  foldl (fun seen s => Labels.addNames (lset s) seen) [] rows.

(** Modelled from the spec: a row group of the label file, the
    label-index column first. *)
Definition writeLabelRowGroup (limit : nat) (names : list string)
  (g : list Series * list nat) : RowGroup :=
  {| NumRows := length g.1;
     ColumnChunks :=
       writeColumn limit ((fun i => Some (Decimal.itoa i)) <$> g.2)
         :: ((fun name =>
                writeColumn limit
                  ((fun s => Labels.Lookup (lset s) name) <$> g.1))
               <$> names) |}.

(** Modelled from the spec: step 4 writes the rows of a shard in row
    groups capped at the row-group size; the label-index column has a
    value for every row, a label column is null where the series lacks
    the label; every column is cut into pages by the page buffer and
    carries the bounds of its pages. *)
Definition writeLabels (opts : Options) (rows : list Series) : File :=
  let groups := rowGroupsOf (rowGroupSize opts) rows in
  let names := labelNames rows in
  {| Schema := LabelIndexColumn :: (LabelNameToColumn <$> names);
     RowGroups :=
       writeLabelRowGroup (labelPageBufferSize opts) names
         <$> zip groups (positions O groups) |}.

(** *** Step 5: the chunk file *)

(** Modelled from the spec: a row group of the chunk file. *)
Definition writeChunkRowGroup (g : list Series * list nat) : list ChunkRow :=
  (fun si => {| chunkIndex := si.2; chunkSamples := samples si.1 |})
    <$> zip g.1 g.2.

(** Modelled from the spec: step 5 writes the chunk file with the
    rows and the row groups of the label file. *)
Definition writeChunks (opts : Options) (rows : list Series) : ChunkFile :=
  let groups := rowGroupsOf (rowGroupSize opts) rows in
  {| ChunkRowGroups := writeChunkRowGroup <$> zip groups (positions O groups) |}.

(** *** Step 6: the objects of the block *)

(** Modelled from the spec: the label file and the chunk file of every
    shard. *)
Definition convertShards (day : Z) (blocks : list Convertible)
  (opts : Options) : list (File * ChunkFile) :=
  (fun rows => (writeLabels opts rows, writeChunks opts rows))
    <$> shardRows opts (collect day blocks).

(** Modelled from the spec: the timestamps of the samples written. *)
Definition timestamps (series : list Series) : list Z :=
  s ← series; fst <$> samples s.

(** Modelled from the spec: the Meta of the block, with the least and
    the greatest timestamp and the number of shards. *)
Definition blockMeta (day : Z) (series : list Series) (shards : nat) : Meta :=
  {| metaName := BlockNameForDay day;
     metaMint := foldr Z.min (day + dayMillis) (timestamps series);
     metaMaxt := foldr Z.max day (timestamps series);
     metaShards := Z.of_nat shards;
     metaLabels := [];
     metaVersion := 1 |}.

(** No object of the bucket is a Meta. *)
Definition noMeta (bkt : BucketState) : Prop :=
  map_Forall (fun _ o => forall m, o <> ObjMeta m) bkt.

(** Modelled from the spec: the two files of a shard are put under
    their names. *)
Definition putShard (name : string) (bkt : BucketState)
  (shard : nat * (File * ChunkFile)) : BucketState :=
  <[ChunksPfileNameForShard name shard.1 := ObjChunks shard.2.2]>
    (<[LabelsPfileNameForShard name shard.1 := ObjLabels shard.2.1]> bkt).

(** Modelled from the spec: [ConvertTSDBBlock] is not among the
    sources; the files of the shards are written first, the Meta
    last. *)
Definition ConvertTSDBBlock (bkt : BucketState) (day : Z)
  (blocks : list Convertible) (opts : Options) : BucketState :=
  let files := convertShards day blocks opts in
  let name := BlockNameForDay day in
  let bkt' := foldl (putShard name) bkt (zip (seq O (length files)) files) in
  <[MetaFileNameForBlock name :=
      ObjMeta (blockMeta day (collect day blocks) (length files))]> bkt'.

(** Modelled from the spec: the discoverer of package [locate] is not
    among the sources; it lists the keys that follow the naming of
    Meta files and maps the name of each block to its Meta. *)
Definition Discover (bkt : BucketState) : Metas :=
  list_to_map
    (omap (fun kv =>
             match kv.2 with
             | ObjMeta m =>
                 if String.eqb kv.1 (MetaFileNameForBlock (metaName m))
                 then Some (metaName m, m) else None
             | _ => None
             end)
          (map_to_list bkt)).

End Convert.

(** ** The test of the converter *)

Module ConvertTest.
Import TestStorage Parquet Convert.

(** The labels of the [i]-th series of [TestConverter]. *)
Definition seriesLabels (i : nat) : Labels.Labels :=
  Labels.FromStrings
    [("__name__", "foo_" +:+ Decimal.itoa (i / 10));
     ("col_" +:+ Decimal.itoa (i / 100), Decimal.itoa (2 * i))].

(** The two loops: 120 samples for each of 1000 series, all at
    [time.Second.Milliseconds()] with the value [float64(i)]. *)
Definition appendSeries (h : Head) (i : nat) : Head :=
  Nat.iter 120 (Append (seriesLabels i) 1000 (Z.of_nat i)) h.

Definition testHead : Head := foldl appendSeries [] (seq 0 1000).

(** The [i]-th series as the head holds it after the loops. *)
Definition testSeries (i : nat) : Series :=
  {| lset := seriesLabels i; samples := replicate 120 (1000, Z.of_nat i) |}.

Definition testDay : Z := BeginOfDay (MinTime testHead).

Definition testOptions : Options :=
  {| sortBy := [Labels.MetricName];
     rowGroupSize := 250;
     rowGroupCount := 2;
     labelPageBufferSize := 1024 |}.

Definition testBucket : BucketState :=
  ConvertTSDBBlock ∅ testDay [testHead] testOptions.

(** [loadParquetFile] for the label file and the chunk file of a
    shard. *)
Definition loadLabels (bkt : BucketState) (name : string) (i : nat)
  : option File :=
  match bkt !! LabelsPfileNameForShard name i with
  | Some (ObjLabels pf) => Some pf
  | _ => None
  end.

Definition loadChunks (bkt : BucketState) (name : string) (i : nat)
  : option ChunkFile :=
  match bkt !! ChunksPfileNameForShard name i with
  | Some (ObjChunks cf) => Some cf
  | _ => None
  end.

(** The [%q] verb, for a string without characters to escape. *)
Definition quoted (s : string) : string :=
  String (ascii_of_nat 34) s +:+ String (ascii_of_nat 34) "".

(** The first failing element of a loop, if any. *)
Fixpoint firstError {A : Type} (f : A -> option error) (l : list A)
  : option error :=
  match l with
  | [] => None
  | x :: l' => match f x with Some e => Some e | None => firstError f l' end
  end.

(** [nameColumnPageBoundsAreAscending] *)
Definition nameColumnPageBoundsAreAscending (pf : File) : option error :=
  match SchemaLookup pf (LabelNameToColumn Labels.MetricName) with
  | None => Some (Errorf "file is missing column for label key: __name__")
  | Some lc =>
      firstError
        (fun rg =>
           match ColumnChunks rg !! lc with
           | None => Some (Errorf "index out of range")
           | Some cc =>
               let cidx := Index cc in
               if negb (IsAscending cidx) && bool_decide (1 < NumPages cidx)%nat
               then Some (Errorf ("column " +:+ quoted Labels.MetricName
                                  +:+ " was not ascending"))
               else None
           end)
        (RowGroups pf)
  end.

(** The [parquet.ValueWriterFunc] of [nameColumnValuesAreIncreasing]:
    no two neighbours out of order. *)
Fixpoint vwf (vs : list Value) : option error :=
  match vs with
  | [] => None
  | v :: vs' =>
      match vs' with
      | [] => None
      | v' :: _ =>
          if bool_decide (valueLe v v') then vwf vs'
          else Some (Errorf ("expected " +:+ quoted (bytesOf v')
                             +:+ " to be larger or equal to "
                             +:+ quoted (bytesOf v)))
      end
  end.

(** [parquet.CopyValues(vwf, p.Values())]: the values of the page go
    to the writer in batches of the size of the copy buffer. *)
Definition CopyValues (bufferSize : nat) (p : Page) : option error :=
  firstError vwf (rowGroupsOf bufferSize p).

(** [nameColumnValuesAreIncreasing] *)
Definition nameColumnValuesAreIncreasing (bufferSize : nat) (pf : File)
  : option error :=
  match SchemaLookup pf (LabelNameToColumn Labels.MetricName) with
  | None => Some (Errorf "file is missing column for label key: __name__")
  | Some lc =>
      firstError
        (fun rg =>
           match ColumnChunks rg !! lc with
           | None => Some (Errorf "index out of range")
           | Some cc =>
               match firstError (CopyValues bufferSize) (Pages cc) with
               | Some e => Some (Wrapf "unable to copy values :" e)
               | None => None
               end
           end)
        (RowGroups pf)
  end.

End ConvertTest.

(** ** A small conversion

    Five series of two metrics in one block, two shards, row groups of
    two rows and pages of a few bytes. *)
Module Small.
Import TestStorage Parquet Convert.

Definition head : Head :=
  foldl (fun h '(metric, job, t) =>
           Append (Labels.FromStrings [("job", job); ("__name__", metric)])
             t 1 h)
    []
    [("up", "b", 10); ("up", "a", 20); ("go_info", "a", 30);
     ("up", "c", 40); ("go_info", "b", 50); ("up", "a", 60)].

Definition options : Options :=
  {| sortBy := [Labels.MetricName];
     rowGroupSize := 2;
     rowGroupCount := 2;
     labelPageBufferSize := 3 |}.

Definition emptyFiles : File * ChunkFile :=
  ({| Schema := []; RowGroups := [] |}, {| ChunkRowGroups := [] |}).

(** The files of the first shard, its first row group, and the chunk
    of the [__name__] column in it. *)
Definition shard : File * ChunkFile :=
  default emptyFiles (convertShards 0 [head] options !! O).

Definition rowGroup : RowGroup :=
  default {| NumRows := O; ColumnChunks := [] |} (RowGroups shard.1 !! O).

Definition nameChunk : ColumnChunk :=
  default (writeColumn O []) (ColumnChunks rowGroup !! 1%nat).

End Small.

(** * More of the wiring and of the test *)

(** ** setupTracing *)

(** [tracingOpts]; [float64] is the type of the sampling parameter. *)
Record tracingOpts (float64 : Type) : Type := {
  exporterType : string;
  jaegerEndpoint : string;
  samplingParam : float64;
  samplingType : string;
}.
Arguments exporterType {float64} _.
Arguments jaegerEndpoint {float64} _.
Arguments samplingParam {float64} _.
Arguments samplingType {float64} _.

(** [trace.Sampler], by the constructor that made it. *)
Inductive Sampler (float64 : Type) : Type :=
| TraceIDRatioBased (fraction : float64)
| AlwaysSample
| NeverSample
| ParentBased (root : Sampler float64).
Arguments TraceIDRatioBased {float64} _.
Arguments AlwaysSample {float64}.
Arguments NeverSample {float64}.
Arguments ParentBased {float64} _.

(** What [trace.NewTracerProvider] is given: [WithSampler],
    [WithBatcher] and [WithResource]. *)
Record TracerProvider (float64 SpanExporter Resource : Type) : Type := {
  tpSampler : Sampler float64;
  tpBatcher : SpanExporter;
  tpResource : Resource;
}.
Arguments tpSampler {float64 SpanExporter Resource} _.
Arguments tpBatcher {float64 SpanExporter Resource} _.
Arguments tpResource {float64 SpanExporter Resource} _.

(** The packages [setupTracing] calls: the two exporters and
    [resource.New], with the world they reach. *)
Record TracingExternals : Type := {
  float64 : Type;
  SpanExporter : Type;
  Resource : Type;
  TracingWorld : Type;
  jaegerNew : string -> TracingWorld -> result SpanExporter * TracingWorld;
  stdouttraceNew : TracingWorld -> result SpanExporter * TracingWorld;
  resourceNew :
    Context -> list (string * string) -> TracingWorld
    -> result Resource * TracingWorld;
}.

Inductive TracingCall : Type :=
| CallJaegerNew (endpoint : string)
| CallStdoutNew
| CallResourceNew (ctx : Context) (attrs : list (string * string)).

(** The state [setupTracing] works on: the world of its collaborators,
    the global tracer provider of [otel] (none set at first) and the
    ghost trace of the calls made. *)
Record TracingSt (T : TracingExternals) : Type := {
  tworld : TracingWorld T;
  tprovider : option (TracerProvider (float64 T) (SpanExporter T) (Resource T));
  tcalls : list TracingCall;
}.
Arguments tworld {T} _.
Arguments tprovider {T} _.
Arguments tcalls {T} _.

(** [opts] with another sampling parameter and another Jaeger
    endpoint. *)
Definition withSampling {float64 : Type} (param : float64) (endpoint : string)
  (opts : tracingOpts float64) : tracingOpts float64 :=
  {| exporterType := exporterType opts; jaegerEndpoint := endpoint;
     samplingParam := param; samplingType := samplingType opts |}.

Section Tracing.

Context (T : TracingExternals).

Definition tracingExternal {A : Type} (c : TracingCall)
  (f : TracingWorld T -> A * TracingWorld T) : M (TracingSt T) A :=
  fun s =>
    let '(a, w) := f (tworld s) in
    (a, {| tworld := w; tprovider := tprovider s; tcalls := tcalls s ++ [c] |}).

(** [otel.SetTracerProvider] *)
Definition SetTracerProvider
  (tp : TracerProvider (float64 T) (SpanExporter T) (Resource T))
  : M (TracingSt T) unit :=
  fun s =>
    (tt, {| tworld := tworld s; tprovider := Some tp; tcalls := tcalls s |}).

(** The first switch: the exporter of the type, made by its package. *)
Definition newExporter (opts : tracingOpts (float64 T))
  : option (M (TracingSt T) (result (SpanExporter T))) :=
  if String.eqb (exporterType opts) "JAEGER" then
    Some (tracingExternal (CallJaegerNew (jaegerEndpoint opts))
            (jaegerNew T (jaegerEndpoint opts)))
  else if String.eqb (exporterType opts) "STDOUT" then
    Some (tracingExternal CallStdoutNew (stdouttraceNew T))
  else None.

(** The second switch: the sampler of the type. *)
Definition newSampler (opts : tracingOpts (float64 T))
  : option (Sampler (float64 T)) :=
  if String.eqb (samplingType opts) "PROBABILISTIC" then
    Some (TraceIDRatioBased (samplingParam opts))
  else if String.eqb (samplingType opts) "ALWAYS" then Some AlwaysSample
  else if String.eqb (samplingType opts) "NEVER" then Some NeverSample
  else None.

(** The attributes of the resource: [semconv.ServiceName] and
    [semconv.ServiceVersion]. *)
Definition serviceAttributes : list (string * string) :=
  [("service.name", "parquet-gateway"); ("service.version", "v0.0.0")].

Definition setupTracing (ctx : Context) (opts : tracingOpts (float64 T))
  : M (TracingSt T) (option error) :=
  match newExporter opts with
  | None => ret (Some (Errorf ("invalid exporter type " +:+ exporterType opts)))
  | Some new =>
      r <~ new;
      match r with
      | Err err => ret (Some err)
      | Ok exporter =>
          match newSampler opts with
          | None =>
              ret (Some (Errorf ("invalid sampling type " +:+ samplingType opts)))
          | Some sampler =>
              r <~ tracingExternal (CallResourceNew ctx serviceAttributes)
                     (resourceNew T ctx serviceAttributes);
              match r with
              | Err err => ret (Some err)
              | Ok res =>
                  SetTracerProvider
                    {| tpSampler := ParentBased sampler;
                       tpBatcher := exporter;
                       tpResource := res |} >>
                  ret None
              end
          end
      end
  end.

End Tracing.

(** ** Words about the loops *)

Section LoopWords.

Context (E : Externals).








End LoopWords.

(** ** The other checks of the test *)

Module MoreChecks.
Import Parquet Convert ConvertTest.

(** [pf.ColumnIndexes()]: the column indexes of the column chunks, row
    group after row group. *)
Definition ColumnIndexes (pf : File) : list ColumnIndex :=
  rg ← RowGroups pf; Index <$> ColumnChunks rg.

(** [len(pf.Schema().Columns())] *)
Definition NumColumns (pf : File) : nat := length (Schema pf).

(** The inner loop of [hasNoNullColumns]: the null-page flags of the
    column indexes at the positions [j], [j + 1], ... that are [i]
    modulo [ncols]. *)
Fixpoint nullPagesOf (ncols i j : nat) (cidxs : list ColumnIndex) : list bool :=
  match cidxs with
  | [] => []
  | cidx :: cidxs' =>
      (if (j mod ncols =? i)%nat then NullPages cidx else [])
        ++ nullPagesOf ncols i (S j) cidxs'
  end.

(** [hasNoNullColumns] *)
Definition hasNoNullColumns (pf : File) : option error :=
  let cidxs := ColumnIndexes pf in
  let ncols := NumColumns pf in
  firstError
    (fun i =>
       if existsb negb (nullPagesOf ncols i O cidxs) then None
       else Some (Errorf ("column " +:+ Decimal.itoa i
                          +:+ " has only null pages")))
    (seq O ncols).

(** [hasExpectedIndexes] *)
Definition hasExpectedIndexes (pf : File) : option error :=
  let cidxs := ColumnIndexes pf in
  let ncols := NumColumns pf in
  match SchemaLookup pf LabelIndexColumn with
  | None => Some (Errorf ("file is missing column: " +:+ LabelIndexColumn))
  | Some _ =>
      firstError
        (fun jc : nat * ColumnIndex =>
           match MinValues jc.2, MaxValues jc.2 with
           | [], _ =>
               Some (Errorf ("column is missing min values: "
                             +:+ Decimal.itoa (jc.1 mod ncols)))
           | _ :: _, [] =>
               Some (Errorf ("column is missing max values: "
                             +:+ Decimal.itoa (jc.1 mod ncols)))
           | _ :: _, _ :: _ => None
           end)
        (zip (seq O (length cidxs)) cidxs)
  end.

(** Every row group of the file has a chunk for every column of the
    schema. *)
Definition wellFormed (pf : File) : Prop :=
  Forall (fun rg => length (ColumnChunks rg) = NumColumns pf) (RowGroups pf).

End MoreChecks.

(** ** A small instance of the tracing packages

    A Jaeger collector that cannot be reached, a standard output that
    can. *)
Definition testTracing : TracingExternals :=
  {| float64 := Z;
     SpanExporter := string;
     Resource := list (string * string);
     TracingWorld := nat;
     jaegerNew := fun _ w => (Err (Foreign "collector unreachable"), S w);
     stdouttraceNew := fun w => (Ok "stdout", S w);
     resourceNew := fun _ attrs w => (Ok attrs, S w) |}.

Definition testTracingSt : TracingSt testTracing :=
  Build_TracingSt testTracing O None [].

Definition testTracingOpts (exporter sampling : string) : tracingOpts Z :=
  {| exporterType := exporter; jaegerEndpoint := "http://localhost:14268";
     samplingParam := 1; samplingType := sampling |}.

(** A file of one row group and two columns, the second with a page of
    nulls only; and the file with no row group at all. *)
Definition testNullFile : Parquet.File :=
  {| Parquet.Schema := ["___cf_meta_index"; "___cf_meta_label_job"];
     Parquet.RowGroups :=
       [{| Parquet.NumRows := 1;
           Parquet.ColumnChunks :=
             [{| Parquet.Pages := [[Some "0"]];
                 Parquet.Index := Parquet.indexPages [[Some "0"]] |};
              {| Parquet.Pages := [[None]];
                 Parquet.Index := Parquet.indexPages [[None]] |}] |}] |}.

(** A file whose [__name__] column has one page per row group, with
    values out of order in it. *)
Definition testNameFile : Parquet.File :=
  {| Parquet.Schema := ["___cf_meta_index"; "___cf_meta_label___name__"];
     Parquet.RowGroups :=
       [{| Parquet.NumRows := 2;
           Parquet.ColumnChunks :=
             [{| Parquet.Pages := [[Some "0"; Some "1"]];
                 Parquet.Index := Parquet.indexPages [[Some "0"; Some "1"]] |};
              {| Parquet.Pages := [[Some "up"; Some "go_info"]];
                 Parquet.Index :=
                   Parquet.indexPages [[Some "up"; Some "go_info"]] |}] |}] |}.

(** A file with two columns and no row group. *)
Definition testEmptyFile : Parquet.File :=
  {| Parquet.Schema := ["___cf_meta_index"; "___cf_meta_label_job"];
     Parquet.RowGroups := [] |}.

(** * Properties of the wiring *)

(** ** Upper-casing and equality up to case *)

Module StringsFacts.
Import Strings.

Lemma upperByte_lowerByte (c : ascii) : upperByte (lowerByte c) = upperByte c.
Proof. destruct c as [[] [] [] [] [] [] [] []]; reflexivity. Qed.

Lemma lowerByte_upperByte (c : ascii) : lowerByte (upperByte c) = lowerByte c.
Proof. destruct c as [[] [] [] [] [] [] [] []]; reflexivity. Qed.

Lemma isASCIIByte_lowerByte (c : ascii) :
  isASCIIByte (lowerByte c) = isASCIIByte c.
Proof. destruct c as [[] [] [] [] [] [] [] []]; reflexivity. Qed.

Lemma mapBytes_mapBytes (f g : ascii -> ascii) (s : string) :
  mapBytes f (mapBytes g s) = mapBytes (fun c => f (g c)) s.
Proof. induction s as [|c s IH]; simpl; [done | by rewrite IH]. Qed.

Lemma mapBytes_ext (f g : ascii -> ascii) (s : string) :
  (forall c, f c = g c) -> mapBytes f s = mapBytes g s.
Proof. intros Hfg. induction s as [|c s IH]; simpl; [done | by rewrite Hfg, IH]. Qed.

Lemma isASCII_lower (s : string) : isASCII (mapBytes lowerByte s) = isASCII s.
Proof.
  induction s as [|c s IH]; simpl; [done |].
  by rewrite isASCIIByte_lowerByte, IH.
Qed.

Lemma upper_of_lower (s : string) :
  mapBytes upperByte (mapBytes lowerByte s) = mapBytes upperByte s.
Proof. rewrite mapBytes_mapBytes. apply mapBytes_ext, upperByte_lowerByte. Qed.

Lemma lower_of_upper (s : string) :
  mapBytes lowerByte (mapBytes upperByte s) = mapBytes lowerByte s.
Proof. rewrite mapBytes_mapBytes. apply mapBytes_ext, lowerByte_upperByte. Qed.

Lemma EqualFold_isASCII (s t : string) :
  EqualFold s t -> isASCII s = isASCII t.
Proof.
  unfold EqualFold. intros H.
  by rewrite <- (isASCII_lower s), <- (isASCII_lower t), H.
Qed.

(** Strings equal up to case have the same upper-casing, when one of
    them is made of ASCII bytes. *)
Lemma ToUpper_EqualFold (u : string -> string) (s t : string) :
  isASCII t = true -> EqualFold s t -> ToUpper u s = ToUpper u t.
Proof.
  intros Ht Hst. unfold ToUpper.
  rewrite (EqualFold_isASCII s t Hst), Ht.
  by rewrite <- (upper_of_lower s), <- (upper_of_lower t), Hst.
Qed.

(** An ASCII string is equal up to case to its upper-casing. *)
Lemma EqualFold_ToUpper (u : string -> string) (s : string) :
  isASCII s = true -> EqualFold s (ToUpper u s).
Proof.
  intros Hs. unfold ToUpper, EqualFold. rewrite Hs.
  by rewrite lower_of_upper.
Qed.

End StringsFacts.

Lemma String_eqb_false (s t : string) : s <> t -> String.eqb s t = false.
Proof. intros H. by apply String.eqb_neq. Qed.

Section WiringFacts.

Context (E : Externals).

(** ** setupBucket *)

Lemma subConfigFor_known (prov : ObjProvider) (opts : bucketOpts) :
  prov ∈ [FILESYSTEM; S3] <-> is_Some (subConfigFor prov opts).
Proof.
  unfold subConfigFor. split.
  - rewrite !elem_of_cons. intros [-> | [-> | H]]; [by eexists ..|].
    by apply elem_of_nil in H.
  - destruct (String.eqb prov FILESYSTEM) eqn:Hf.
    { apply String.eqb_eq in Hf as ->. intros _. set_solver. }
    destruct (String.eqb prov S3) eqn:Hs.
    { apply String.eqb_eq in Hs as ->. intros _. set_solver. }
    intros [? ?]; discriminate.
Qed.

Lemma subConfigFor_withStorage (prov : ObjProvider) (name : string)
  (opts : bucketOpts) :
  subConfigFor prov (withStorage name opts) = subConfigFor prov opts.
Proof. reflexivity. Qed.

Lemma setupBucket_unknown (opts : bucketOpts) (s : St E) :
  let prov := Strings.ToUpper (unicodeUpper E) (storage opts) in
  prov ∉ [FILESYSTEM; S3] ->
  setupBucket E opts s = (Err (Errorf ("unknown bucket type: " +:+ prov)), s).
Proof.
  intros prov Hprov. unfold setupBucket. fold prov.
  destruct (subConfigFor prov opts) as [sub|] eqn:Hsub; [|done].
  exfalso. apply Hprov. apply (subConfigFor_known prov opts). by eexists.
Qed.

Lemma setupBucket_known_not_unknown (opts : bucketOpts) (s : St E) :
  Strings.ToUpper (unicodeUpper E) (storage opts) ∈ [FILESYSTEM; S3] ->
  ~ unknownBucketType (setupBucket E opts s).1.
Proof.
  intros Hprov [prov Hr]. unfold setupBucket in Hr.
  apply (subConfigFor_known _ opts) in Hprov as [sub Hsub].
  rewrite Hsub in Hr.
  destruct (yamlMarshal E _) as [bytes|err]; [|discriminate].
  unfold bind, NewBucket, external, ret in Hr.
  destruct (clientNewBucket E _ _ _) as [[bkt|err] w]; discriminate.
Qed.

(** C6.  A storage name whose upper-casing is none of the providers of
    the switch makes [setupBucket] return the "unknown bucket type"
    error, and a filter type that is none of the two policies makes
    [setupMetaFilter] return the "unknown meta filter type" error;
    both return at once: the state is the one they were given (nothing
    logged, no collaborator called, no loop added), so nothing is
    tried again. *)
Theorem unknown_names_are_fatal :
  (forall (opts : bucketOpts) (s : St E),
      Strings.ToUpper (unicodeUpper E) (storage opts) ∉ [FILESYSTEM; S3] ->
      setupBucket E opts s
      = (Err (Errorf ("unknown bucket type: "
                      +:+ Strings.ToUpper (unicodeUpper E) (storage opts))),
         s)) /\
  (forall (ctx : Context) (opts : syncerOpts) (env : Env E),
      filterType opts ∉ ["all-metas"; "thanos-backfill"] ->
      setupMetaFilter E ctx opts env
      = (Err (Errorf ("unknown meta filter type: " +:+ filterType opts)),
         env)).
Proof.
  split.
  - intros opts s H. by apply setupBucket_unknown.
  - intros ctx opts env H. unfold setupMetaFilter.
    rewrite !String_eqb_false; [done | |]; intros Heq; apply H; rewrite Heq;
      set_solver.
Qed.

(** [setupBucket] reads the storage name through its upper-casing
    only. *)
Lemma setupBucket_by_upper_case (n1 n2 : string) (opts : bucketOpts) :
  Strings.ToUpper (unicodeUpper E) n1 = Strings.ToUpper (unicodeUpper E) n2 ->
  setupBucket E (withStorage n1 opts) = setupBucket E (withStorage n2 opts).
Proof. intros H. unfold setupBucket. simpl. by rewrite H. Qed.

Lemma ToUpper_of_known (name : string) (p : ObjProvider) :
  p ∈ [FILESYSTEM; S3] ->
  Strings.EqualFold name p ->
  Strings.ToUpper (unicodeUpper E) name = p.
Proof.
  intros Hp Hfold.
  assert (Strings.isASCII p = true /\ Strings.ToUpper (unicodeUpper E) p = p)
    as [Hascii Hup].
  { revert Hp. rewrite !elem_of_cons.
    intros [-> | [-> | H]]; [done | done | by apply elem_of_nil in H]. }
  by rewrite (StringsFacts.ToUpper_EqualFold _ name p Hascii Hfold).
Qed.

(** C9.  A storage name equal up to letter case to a provider of the
    switch selects what the provider's own (upper-case) spelling
    selects, and is not rejected as an unknown bucket type: only names
    that match no provider up to case are. *)
Theorem storage_name_ignores_case (name : string) (p : ObjProvider) :
  p ∈ [FILESYSTEM; S3] ->
  Strings.EqualFold name p ->
  forall opts : bucketOpts,
    setupBucket E (withStorage name opts) = setupBucket E (withStorage p opts)
    /\ forall s, ~ unknownBucketType (setupBucket E (withStorage name opts) s).1.
Proof.
  intros Hp Hfold opts.
  pose proof (ToUpper_of_known name p Hp Hfold) as Hname.
  pose proof (ToUpper_of_known p p Hp eq_refl) as Hup.
  split.
  - apply setupBucket_by_upper_case. by rewrite Hname, Hup.
  - intros s. apply setupBucket_known_not_unknown. simpl. by rewrite Hname.
Qed.

(** For names made of ASCII bytes the converse holds too: a name is
    rejected exactly when it matches no provider up to case. *)
Lemma ascii_name_rejected_iff (opts : bucketOpts) (s : St E) :
  Strings.isASCII (storage opts) = true ->
  unknownBucketType (setupBucket E opts s).1
  <-> forall p, p ∈ [FILESYSTEM; S3] -> ~ Strings.EqualFold (storage opts) p.
Proof.
  intros Hascii. split.
  - intros Hrej p Hp Hfold.
    apply (setupBucket_known_not_unknown opts s); [|done].
    by rewrite (ToUpper_of_known _ p Hp Hfold).
  - intros Hno.
    destruct (decide (Strings.ToUpper (unicodeUpper E) (storage opts)
                        ∈ [FILESYSTEM; S3])) as [Hin|Hout].
    + exfalso. apply (Hno _ Hin).
      by apply StringsFacts.EqualFold_ToUpper.
    + rewrite setupBucket_unknown by done. by eexists.
Qed.

(** ** runutil.Repeat around a work function that returns nil *)

Lemma Repeat_never_fails {S : Type} (f : M S (option error)) :
  (forall s, (f s).1 = None) ->
  forall sched s e, (Repeat f sched s).1 <> Returned (Some e).
Proof.
  intros Hf sched. induction sched as [|ev sched IH]; intros s e; simpl;
    specialize (Hf s); destruct (f s) as [[err|] s1]; simpl in *;
    try discriminate.
  destruct ev; [apply IH | discriminate].
Qed.

Lemma Repeat_ticks_wait {S : Type} (f : M S (option error)) :
  (forall s, (f s).1 = None) ->
  forall n s, (Repeat f (replicate n Tick) s).1 = Waiting.
Proof.
  intros Hf n. induction n as [|n IH]; intros s; simpl;
    specialize (Hf s); destruct (f s) as [[err|] s1]; simpl in *;
    try discriminate; [done | apply IH].
Qed.

Lemma Repeat_ticks_calls (f : M (St E) (option error)) :
  (forall s, (f s).1 = None) ->
  (forall s, length (calls (f s).2) = S (length (calls s))) ->
  forall n s,
    length (calls (Repeat f (replicate n Tick) s).2)
    = (length (calls s) + S n)%nat.
Proof.
  intros Hf Hc n. induction n as [|n IH]; intros s; simpl;
    specialize (Hf s); specialize (Hc s);
    destruct (f s) as [[err|] s1]; simpl in *; try discriminate.
  - lia.
  - rewrite IH. lia.
Qed.

Lemma callsSince_refl (s : St E) (P : Call -> Prop) : callsSince E s s P.
Proof. exists []. by rewrite app_nil_r. Qed.

Lemma callsSince_trans (s1 s2 s3 : St E) (P : Call -> Prop) :
  callsSince E s1 s2 P -> callsSince E s2 s3 P -> callsSince E s1 s3 P.
Proof.
  intros (n1 & H1 & F1) (n2 & H2 & F2). exists (n1 ++ n2). split.
  - by rewrite H2, H1, app_assoc.
  - by apply Forall_app.
Qed.

Lemma Repeat_callsSince (f : M (St E) (option error)) (P : Call -> Prop) :
  (forall s, callsSince E s (f s).2 P) ->
  forall sched s, callsSince E s (Repeat f sched s).2 P.
Proof.
  intros Hf sched. induction sched as [|ev sched IH]; intros s; simpl;
    specialize (Hf s); destruct (f s) as [[err|] s1]; simpl in *; try done.
  destruct ev; [|done]. eapply callsSince_trans; [exact Hf | apply IH].
Qed.

Lemma underTimeout_intro (d : Duration) (c : Call) (parent : Context) :
  callCtx c = Some (WithTimeout parent d) -> underTimeout d c.
Proof.
  intros Hc. exists parent. split; [done |]. intros t Ht. simpl.
  apply orb_true_iff. left. by apply Z.leb_le.
Qed.

(** ** The shape shared by the four work functions *)

Lemma iteration_swallows (dbg msg : string) (c : Call)
  (collab : World E -> option error * World E) :
  swallows E
    (bind (logDebug E dbg [])
       (fun _ =>
          bind (external E c collab)
            (fun err =>
               bind
                 match err with
                 | Some e => logWarn E msg [AttrAny "err" e]
                 | None => ret tt
                 end
                 (fun _ => ret None))))
    collab msg.
Proof.
  set (f := bind _ _).
  assert (Hnil : forall s, (f s).1 = None).
  { intros s. unfold f, bind, external, logDebug, logWarn, logAt, ret. simpl.
    by destruct (collab (world s)) as [[e|] w]. }
  assert (Hcalls : forall s, length (calls (f s).2) = S (length (calls s))).
  { intros s. unfold f, bind, external, logDebug, logWarn, logAt, ret. simpl.
    destruct (collab (world s)) as [[e|] w]; simpl;
      rewrite length_app; simpl; lia. }
  intros s. split; [apply Hnil |]. split; [|split].
  - intros e He. unfold f, bind, external, logDebug, logWarn, logAt, ret.
    simpl. destruct (collab (world s)) as [[e'|] w]; simpl in *;
      [|discriminate].
    injection He as ->. apply elem_of_app. right. apply list_elem_of_singleton.
    reflexivity.
  - intros sched e. by apply Repeat_never_fails.
  - intros n. split; [by apply Repeat_ticks_wait |].
    by apply Repeat_ticks_calls.
Qed.

Lemma iteration_underTimeout (dbg msg : string) (c : Call) (d : Duration)
  (collab : World E -> option error * World E) :
  underTimeout d c ->
  forall s,
    callsSince E s
      (bind (logDebug E dbg [])
         (fun _ =>
            bind (external E c collab)
              (fun err =>
                 bind
                   match err with
                   | Some e => logWarn E msg [AttrAny "err" e]
                   | None => ret tt
                   end
                   (fun _ => ret (@None error)))) s).2
      (underTimeout d).
Proof.
  intros Hc s. exists [c]. split; [|by repeat constructor].
  unfold bind, external, logDebug, logWarn, logAt, ret. simpl.
  by destruct (collab (world s)) as [[e|] w].
Qed.

(** ** The shape shared by the four bootstrap runs *)

Ltac run_setup :=
  unfold setupDiscovery, setupTSDBDiscovery, setupMetaFilter, setupSyncer,
    bind, ret, lift, groupAdd, Discover, TSDBDiscover, Update, Sync,
    external, logInfo, logAt;
  simpl.

(** C4.  When the first run of a component fails with [e] (the
    initial discovery, the initial TSDB discovery, the initial Update
    of the backfill filter, the initial sync), its setup function
    returns [e] wrapped in its message and adds no loop to the group. *)
Theorem bootstrap_failure_is_returned (ctx : Context) (env : Env E) (e : error) :
  (forall bkt opts,
      (discovererDiscover E (NewDiscoverer bkt (discoveryConcurrency opts))
         (WithTimeout ctx (discoveryInterval opts)) (world (st env))).1
      = Some e ->
      stoppedBy E (setupDiscovery E ctx bkt opts) env
        "unable to run initial discovery: " e) /\
  (forall bkt opts,
      (tsdbDiscovererDiscover E
         (NewTSDBDiscoverer bkt (tsdbDiscoveryConcurrency opts)
            (tsdbDiscoveryMinBlockAge opts) (externalLabelMatchers opts))
         (WithTimeout ctx (tsdbDiscoveryInterval opts)) (world (st env))).1
      = Some e ->
      stoppedBy E (setupTSDBDiscovery E ctx bkt opts) env
        "unable to run initial discovery: " e) /\
  (forall opts,
      filterType opts = "thanos-backfill" ->
      (backfillUpdate E
         (NewThanosBackfillMetaFilter (filterThanosBackfillEndpoint opts)
            (filterThanosBackfillOverlap opts))
         (WithTimeout ctx (filterThanosBackfillUpdateInterval opts))
         (world (st env))).1
      = Some e ->
      stoppedBy E (setupMetaFilter E ctx opts) env
        "unable to initialize thanos-backfill meta filter: " e) /\
  (forall bkt discoverer metaFilter opts,
      (syncerSync E
         (NewSyncer bkt metaFilter (syncerConcurrency opts)
            (syncerReadBufferSize opts) (syncerLabelFilesDir opts))
         (WithTimeout ctx (syncerInterval opts))
         (discovererMetas E discoverer (world (st env))) (world (st env))).1
      = Some e ->
      stoppedBy E (setupSyncer E ctx bkt discoverer metaFilter opts) env
        "unable to run initial sync: " e).
Proof.
  unfold stoppedBy. split; [|split; [|split]].
  - intros bkt opts. run_setup.
    destruct (discovererDiscover E _ _ _) as [[e'|] w]; simpl;
      intros; by simplify_eq.
  - intros bkt opts. run_setup.
    destruct (tsdbDiscovererDiscover E _ _ _) as [[e'|] w]; simpl;
      intros; by simplify_eq.
  - intros opts Hty. run_setup. rewrite Hty. simpl.
    destruct (backfillUpdate E _ _ _) as [[e'|] w]; simpl;
      intros; by simplify_eq.
  - intros bkt discoverer metaFilter opts. run_setup.
    destruct (syncerSync E _ _ _ _) as [[e'|] w]; simpl;
      intros; by simplify_eq.
Qed.

(** C5.  Once the first run succeeded, the loop a setup function adds
    to the group has a work function that swallows the failures of
    its collaborator: it logs them as a warning and returns nil, so
    [runutil.Repeat] never returns the error and goes round again on
    the next tick. *)
Theorem cycle_failure_is_swallowed (ctx : Context) (env : Env E) :
  (forall bkt opts d,
      (setupDiscovery E ctx bkt opts env).1 = Ok d ->
      exists a,
        group (setupDiscovery E ctx bkt opts env).2 = group env ++ [a] /\
        loopOf E (discoveryInterval opts) "Stopping discovery"
          (fun loopCtx f =>
             swallows E f
               (discovererDiscover E d
                  (WithTimeout loopCtx (discoveryInterval opts)))
               "Unable to discover new blocks") a) /\
  (forall bkt opts d,
      (setupTSDBDiscovery E ctx bkt opts env).1 = Ok d ->
      exists a,
        group (setupTSDBDiscovery E ctx bkt opts env).2 = group env ++ [a] /\
        loopOf E (tsdbDiscoveryInterval opts) "Stopping tsdb discovery"
          (fun loopCtx f =>
             swallows E f
               (tsdbDiscovererDiscover E d
                  (WithTimeout loopCtx (tsdbDiscoveryInterval opts)))
               "Unable to discover new tsdb blocks") a) /\
  (forall opts mf,
      (setupMetaFilter E ctx opts env).1 = Ok (ThanosBackfillMetaFilter mf) ->
      exists a,
        group (setupMetaFilter E ctx opts env).2 = group env ++ [a] /\
        loopOf E (filterThanosBackfillUpdateInterval opts)
          "Stopping thanos-backfill meta filter updates"
          (fun loopCtx f =>
             swallows E f
               (backfillUpdate E mf
                  (WithTimeout loopCtx (filterThanosBackfillUpdateInterval opts)))
               "Unable to update thanos-backfill meta filter") a) /\
  (forall bkt discoverer metaFilter opts sy,
      (setupSyncer E ctx bkt discoverer metaFilter opts env).1 = Ok sy ->
      exists a,
        group (setupSyncer E ctx bkt discoverer metaFilter opts env).2
        = group env ++ [a] /\
        loopOf E (syncerInterval opts) "Stopping syncer"
          (fun loopCtx f =>
             swallows E f
               (fun w =>
                  syncerSync E sy (WithTimeout loopCtx (syncerInterval opts))
                    (discovererMetas E discoverer w) w)
               "Unable to sync new blocks") a).
Proof.
  split; [|split; [|split]].
  - intros bkt opts d. run_setup.
    destruct (discovererDiscover E _ _ _) as [[e'|] w]; simpl;
      intros; simplify_eq.
    eexists. split; [reflexivity |]. eexists _, _. split; [reflexivity |].
    apply iteration_swallows.
  - intros bkt opts d. run_setup.
    destruct (tsdbDiscovererDiscover E _ _ _) as [[e'|] w]; simpl;
      intros; simplify_eq.
    eexists. split; [reflexivity |]. eexists _, _. split; [reflexivity |].
    apply iteration_swallows.
  - intros opts mf. run_setup.
    destruct (String.eqb (filterType opts) "all-metas"); [done |].
    destruct (String.eqb (filterType opts) "thanos-backfill"); [|done].
    simpl.
    destruct (backfillUpdate E _ _ _) as [[e'|] w]; simpl;
      intros; simplify_eq.
    eexists. split; [reflexivity |]. eexists _, _. split; [reflexivity |].
    apply iteration_swallows.
  - intros bkt discoverer metaFilter opts sy. run_setup.
    destruct (syncerSync E _ _ _ _) as [[e'|] w]; simpl;
      intros; simplify_eq.
    eexists. split; [reflexivity |]. eexists _, _. split; [reflexivity |].
    apply iteration_swallows.
Qed.

(** C8.  Every iteration of the four loops runs under a context made
    by [context.WithTimeout] with the loop's own interval, the first
    run made by the setup function included; such a context is done
    once the interval has passed. *)
Theorem iterations_run_under_interval_timeout (ctx : Context) :
  (forall bkt opts,
      iterationsUnderTimeout E (discoveryInterval opts)
        (setupDiscovery E ctx bkt opts)) /\
  (forall bkt opts,
      iterationsUnderTimeout E (tsdbDiscoveryInterval opts)
        (setupTSDBDiscovery E ctx bkt opts)) /\
  (forall opts,
      iterationsUnderTimeout E (filterThanosBackfillUpdateInterval opts)
        (setupMetaFilter E ctx opts)) /\
  (forall bkt discoverer metaFilter opts,
      iterationsUnderTimeout E (syncerInterval opts)
        (setupSyncer E ctx bkt discoverer metaFilter opts)).
Proof.
  assert (Hone : forall (s : St E) w l c d parent,
             callCtx c = Some (WithTimeout parent d) ->
             callsSince E s (Build_St E w l (calls s ++ [c])) (underTimeout d)).
  { intros s w l c d parent Hc. exists [c]. split; [done |].
    repeat constructor. by eapply underTimeout_intro. }
  assert (Hloop : forall d dbg msg c collab stopc parent,
             callCtx c = Some (WithTimeout parent d) ->
             exists stopc' f,
               ExecRepeat d stopc
                 (bind (logDebug E dbg [])
                    (fun _ =>
                       bind (external E c collab)
                         (fun err =>
                            bind
                              match err with
                              | Some e => logWarn E msg [AttrAny "err" e]
                              | None => ret tt
                              end
                              (fun _ => ret (@None error)))))
               = ExecRepeat d stopc' f /\
               forall sched s,
                 callsSince E s (Repeat f sched s).2 (underTimeout d)).
  { intros d dbg msg c collab stopc parent Hc. eexists _, _.
    split; [reflexivity |]. intros sched s. apply Repeat_callsSince.
    apply iteration_underTimeout. by eapply underTimeout_intro. }
  split; [|split; [|split]].
  - intros bkt opts env. run_setup.
    destruct (discovererDiscover E _ _ _) as [[e'|] w]; simpl.
    + split; [by eapply Hone |]. exists []. by rewrite app_nil_r.
    + split; [by eapply Hone |]. eexists [_]. split; [reflexivity |].
      repeat constructor. simpl. by eapply Hloop.
  - intros bkt opts env. run_setup.
    destruct (tsdbDiscovererDiscover E _ _ _) as [[e'|] w]; simpl.
    + split; [by eapply Hone |]. exists []. by rewrite app_nil_r.
    + split; [by eapply Hone |]. eexists [_]. split; [reflexivity |].
      repeat constructor. simpl. by eapply Hloop.
  - intros opts env. run_setup.
    destruct (String.eqb (filterType opts) "all-metas").
    { split; [apply callsSince_refl |]. exists []. by rewrite app_nil_r. }
    destruct (String.eqb (filterType opts) "thanos-backfill"); simpl.
    2: { split; [apply callsSince_refl |]. exists []. by rewrite app_nil_r. }
    destruct (backfillUpdate E _ _ _) as [[e'|] w]; simpl.
    + split; [by eapply Hone |]. exists []. by rewrite app_nil_r.
    + split; [by eapply Hone |]. eexists [_]. split; [reflexivity |].
      repeat constructor. simpl. by eapply Hloop.
  - intros bkt discoverer metaFilter opts env. run_setup.
    destruct (syncerSync E _ _ _ _) as [[e'|] w]; simpl.
    + split; [by eapply Hone |]. exists []. by rewrite app_nil_r.
    + split; [by eapply Hone |]. eexists [_]. split; [reflexivity |].
      repeat constructor. simpl. by eapply Hloop.
Qed.

(** C7.  With the policy "all-metas" [setupMetaFilter] returns the
    accept-all filter at once, without an error and without touching
    the state (no Update, no loop); and that filter returns the Metas
    it is given, whatever the progress pointer. *)
Theorem accept_all_filter_is_identity :
  (forall (ctx : Context) (opts : syncerOpts) (env : Env E),
      filterType opts = "all-metas" ->
      setupMetaFilter E ctx opts env = (Ok AllMetasMetaFilter, env)) /\
  (forall (pointer : Z) (metas : Metas),
      Filter AllMetasMetaFilter pointer metas = metas).
Proof.
  split.
  - intros ctx opts env Hty. unfold setupMetaFilter. by rewrite Hty.
  - done.
Qed.

(** C10.  The handlers registered under [/-/healthy] and [/-/ready]
    answer every request with status 200 and the body OK, whatever the
    state the API was set up in. *)
Theorem healthy_and_ready_always_ok (reg : Registry E) (opts : apiOpts)
  (env : Env E) :
  exists server,
    group (setupInternalAPI E reg opts env).2
    = group env ++
        [{| execute := ExecListenAndServe (port opts) server;
            interrupt := IntrShutdown (port opts) (shutdownTimeout opts) |}] /\
    Forall (fun pattern =>
              exists h,
                Http.registered pattern (Http.Handler server) = Some h /\
                forall req : Http.Request,
                  h Http.newResponse req
                  = {| Http.wroteHeader := true;
                       Http.status := 200;
                       Http.body := "OK" |})
           ["/-/healthy"; "/-/ready"].
Proof.
  eexists. split; [reflexivity |].
  repeat constructor; (eexists; split; [reflexivity | done]).
Qed.

End WiringFacts.

(** ** The properties at the small instance *)

Lemma bootstrap_failure_witness :
  let e := Foreign "bucket unreachable" in
  let dopts := {| discoveryInterval := 60; discoveryConcurrency := 1 |} in
  let topts :=
    {| tsdbDiscoveryInterval := 60; tsdbDiscoveryConcurrency := 1;
       tsdbDiscoveryMinBlockAge := 0; externalLabelMatchers := [] |} in
  let sopts := testSyncerOpts "thanos-backfill" in
  let d := NewDiscoverer tt 1 in
  stoppedBy testExternals (setupDiscovery testExternals Background tt dopts)
    (testEnv 0) "unable to run initial discovery: " e /\
  stoppedBy testExternals (setupTSDBDiscovery testExternals Background tt topts)
    (testEnv 0) "unable to run initial discovery: " e /\
  stoppedBy testExternals (setupMetaFilter testExternals Background sopts)
    (testEnv 0) "unable to initialize thanos-backfill meta filter: " e /\
  stoppedBy testExternals
    (setupSyncer testExternals Background tt d AllMetasMetaFilter sopts)
    (testEnv 0) "unable to run initial sync: " e.
Proof.
  intros e dopts topts sopts d.
  destruct (bootstrap_failure_is_returned testExternals Background (testEnv 0) e)
    as (H1 & H2 & H3 & H4).
  split; [|split; [|split]].
  - apply H1. reflexivity.
  - apply H2. reflexivity.
  - apply H3; reflexivity.
  - apply H4. reflexivity.
Defined.

Lemma cycle_failure_witness :
  let dopts := {| discoveryInterval := 60; discoveryConcurrency := 1 |} in
  exists a,
    group (setupDiscovery testExternals Background tt dopts (testEnv 1)).2 = [a] /\
    loopOf testExternals 60 "Stopping discovery"
      (fun loopCtx f =>
         swallows testExternals f flaky "Unable to discover new blocks") a.
Proof.
  intros dopts.
  destruct (cycle_failure_is_swallowed testExternals Background (testEnv 1))
    as (H1 & _).
  apply (H1 tt dopts (NewDiscoverer tt 1)). reflexivity.
Defined.

Lemma unknown_names_witness :
  setupBucket testExternals (testBucketOpts "gcs") (st (testEnv 0))
  = (Err (Errorf "unknown bucket type: GCS"), st (testEnv 0)) /\
  setupMetaFilter testExternals Background (testSyncerOpts "newest-only")
    (testEnv 0)
  = (Err (Errorf "unknown meta filter type: newest-only"), testEnv 0).
Proof.
  destruct (unknown_names_are_fatal testExternals) as (H1 & H2). split.
  - apply (H1 (testBucketOpts "gcs")). apply (bool_decide_unpack _).
    vm_compute. exact I.
  - apply H2. apply (bool_decide_unpack _). vm_compute. exact I.
Defined.

Lemma accept_all_witness :
  setupMetaFilter testExternals Background (testSyncerOpts "all-metas") (testEnv 0)
  = (Ok AllMetasMetaFilter, testEnv 0).
Proof.
  destruct (accept_all_filter_is_identity testExternals) as (H1 & _).
  apply H1. reflexivity.
Defined.

Lemma storage_name_witness :
  setupBucket testExternals (withStorage "FileSystem" (testBucketOpts ""))
  = setupBucket testExternals (withStorage FILESYSTEM (testBucketOpts ""))
  /\ forall s,
      ~ unknownBucketType
          (setupBucket testExternals
             (withStorage "FileSystem" (testBucketOpts "")) s).1.
Proof.
  apply (storage_name_ignores_case testExternals "FileSystem" FILESYSTEM).
  - apply (bool_decide_unpack _). vm_compute. exact I.
  - reflexivity.
Defined.

(** * Properties of the conversion *)

(** ** Lexicographic orders *)

Section Lexicographic.

Context {A : Type} (cmp : A -> A -> comparison).
Hypothesis cmp_eq : forall x y, cmp x y = Eq -> x = y.
Hypothesis cmp_refl : forall x, cmp x x = Eq.
Hypothesis cmp_opp : forall x y, cmp x y = CompOpp (cmp y x).
Hypothesis cmp_lt_trans :
  forall x y z, cmp x y = Lt -> cmp y z = Lt -> cmp x z = Lt.

Lemma lex_eq (l1 l2 : list A) : lex cmp l1 l2 = Eq -> l1 = l2.
Proof.
  revert l2. induction l1 as [|x l1 IH]; intros [|y l2]; simpl; try done.
  destruct (cmp x y) eqn:Hxy; try done.
  intros H. by rewrite (cmp_eq _ _ Hxy), (IH _ H).
Qed.

Lemma lex_refl (l : list A) : lex cmp l l = Eq.
Proof. induction l as [|x l IH]; simpl; [done |]. by rewrite cmp_refl. Qed.

Lemma lex_opp (l1 l2 : list A) : lex cmp l1 l2 = CompOpp (lex cmp l2 l1).
Proof.
  revert l2. induction l1 as [|x l1 IH]; intros [|y l2]; simpl; try done.
  rewrite (cmp_opp x y). destruct (cmp y x); simpl; [apply IH | done | done].
Qed.

Lemma lex_lt_trans (l1 l2 l3 : list A) :
  lex cmp l1 l2 = Lt -> lex cmp l2 l3 = Lt -> lex cmp l1 l3 = Lt.
Proof.
  revert l2 l3.
  induction l1 as [|x l1 IH]; intros [|y l2] [|z l3]; simpl; try done.
  destruct (cmp x y) eqn:Hxy; destruct (cmp y z) eqn:Hyz; try done.
  - apply cmp_eq in Hxy as ->. rewrite Hyz. apply IH.
  - apply cmp_eq in Hxy as ->. by rewrite Hyz.
  - apply cmp_eq in Hyz as <-. by rewrite Hxy.
  - by rewrite (cmp_lt_trans _ _ _ Hxy Hyz).
Qed.

Lemma lex_le_trans (l1 l2 l3 : list A) :
  lex cmp l1 l2 <> Gt -> lex cmp l2 l3 <> Gt -> lex cmp l1 l3 <> Gt.
Proof.
  intros H12 H23.
  destruct (lex cmp l1 l2) eqn:E12; [| |done].
  { by rewrite (lex_eq _ _ E12). }
  destruct (lex cmp l2 l3) eqn:E23; [| |done].
  { by rewrite <- (lex_eq _ _ E23), E12. }
  by rewrite (lex_lt_trans _ _ _ E12 E23).
Qed.

Lemma lex_le_total (l1 l2 : list A) :
  lex cmp l1 l2 <> Gt \/ lex cmp l2 l1 <> Gt.
Proof.
  rewrite (lex_opp l1 l2). destruct (lex cmp l2 l1); simpl; auto.
Qed.

(** The order of the first elements decides, unless they are equal. *)
Lemma lex_le_head (x y : A) (l1 l2 : list A) :
  lex cmp (x :: l1) (y :: l2) <> Gt -> cmp x y <> Gt.
Proof. simpl. by destruct (cmp x y). Qed.

End Lexicographic.

(** ** The order of byte strings *)

Lemma ascii_compare_refl (c : ascii) : Ascii.compare c c = Eq.
Proof. apply N.compare_refl. Qed.

Lemma ascii_compare_lt_trans (a b c : ascii) :
  Ascii.compare a b = Lt -> Ascii.compare b c = Lt -> Ascii.compare a c = Lt.
Proof. unfold Ascii.compare. rewrite !N.compare_lt_iff. lia. Qed.

Lemma string_compare_lex (s t : string) :
  String.compare s t
  = lex Ascii.compare (String.list_ascii_of_string s)
      (String.list_ascii_of_string t).
Proof.
  revert t. induction s as [|c s IH]; intros [|d t]; simpl; try done.
  by rewrite IH.
Qed.

Lemma list_ascii_inj (s t : string) :
  String.list_ascii_of_string s = String.list_ascii_of_string t -> s = t.
Proof.
  intros H.
  by rewrite <- (String.string_of_list_ascii_of_string s),
    <- (String.string_of_list_ascii_of_string t), H.
Qed.

Lemma string_compare_eq (s t : string) : String.compare s t = Eq -> s = t.
Proof.
  rewrite string_compare_lex. intros H. apply list_ascii_inj.
  by apply (lex_eq Ascii.compare Ascii.compare_eq_iff).
Qed.

Lemma string_compare_refl (s : string) : String.compare s s = Eq.
Proof. rewrite string_compare_lex. apply lex_refl, ascii_compare_refl. Qed.

Lemma string_compare_lt_trans (s t u : string) :
  String.compare s t = Lt -> String.compare t u = Lt -> String.compare s u = Lt.
Proof.
  rewrite !string_compare_lex.
  apply lex_lt_trans.
  - exact Ascii.compare_eq_iff.
  - exact ascii_compare_lt_trans.
Qed.

Lemma bytesLe_compare (s t : string) : bytesLe s t <-> String.compare s t <> Gt.
Proof. unfold bytesLe, String.leb. by destruct (String.compare s t). Qed.

Global Instance bytesLe_refl : Reflexive bytesLe.
Proof. intros s. apply bytesLe_compare. by rewrite string_compare_refl. Qed.

Global Instance bytesLe_trans : Transitive bytesLe.
Proof.
  intros s t u. rewrite !bytesLe_compare, !string_compare_lex.
  apply lex_le_trans.
  - exact Ascii.compare_eq_iff.
  - exact ascii_compare_lt_trans.
Qed.

Global Instance bytesLe_total : Total bytesLe.
Proof. intros s t. apply String.leb_total. Qed.

Lemma bytesLe_empty (s : string) : bytesLe "" s.
Proof. by destruct s. Qed.

(** ** The order of rows *)

Lemma compareKeys_le_trans (k1 k2 k3 : list string) :
  compareKeys k1 k2 <> Gt -> compareKeys k2 k3 <> Gt -> compareKeys k1 k3 <> Gt.
Proof.
  apply lex_le_trans.
  - exact string_compare_eq.
  - exact string_compare_lt_trans.
Qed.

Lemma compareKeys_le_total (k1 k2 : list string) :
  compareKeys k1 k2 <> Gt \/ compareKeys k2 k1 <> Gt.
Proof. apply lex_le_total, String.compare_antisym. Qed.

Global Instance rowLe_trans (sortBy : list string) :
  Transitive (Convert.rowLe sortBy).
Proof. intros a b c. apply compareKeys_le_trans. Qed.

Global Instance rowLe_total (sortBy : list string) :
  Total (Convert.rowLe sortBy).
Proof. intros a b. apply compareKeys_le_total. Qed.

Global Instance valueLe_trans : Transitive Parquet.valueLe.
Proof. intros a b c. unfold Parquet.valueLe. apply bytesLe_trans. Qed.

Global Instance nameLe_total : Total Labels.nameLe.
Proof. intros a b. apply bytesLe_total. Qed.

(** Rows in order have the values of the first sort-key label in
    order. *)
Lemma rowLe_first_key (k : string) (ks : list string)
  (s1 s2 : TestStorage.Series) :
  Convert.rowLe (k :: ks) s1 s2 ->
  Parquet.valueLe (Labels.Lookup (TestStorage.lset s1) k)
    (Labels.Lookup (TestStorage.lset s2) k).
Proof.
  unfold Convert.rowLe, Convert.rowKey, Parquet.valueLe. simpl. intros H.
  apply bytesLe_compare. by apply lex_le_head in H.
Qed.

Lemma sortRows_sorted (sortBy : list string) (rows : list TestStorage.Series) :
  StronglySorted (Convert.rowLe sortBy) (Convert.sortRows sortBy rows).
Proof. apply StronglySorted_merge_sort; apply _. Qed.

Lemma sortRows_length (sortBy : list string) (rows : list TestStorage.Series) :
  length (Convert.sortRows sortBy rows) = length rows.
Proof. apply Permutation_length, merge_sort_Permutation. Qed.

(** ** Lists cut in contiguous pieces *)

Section Pieces.

Context {A : Type}.
Implicit Types (l : list A) (ls : list (list A)).

Lemma concat_length ls : length (concat ls) = sum_list (length <$> ls).
Proof.
  induction ls as [|l' ls IH]; simpl; [done |].
  rewrite length_app, IH. done.
Qed.

Lemma elem_of_concat (x : A) l ls : x ∈ l -> l ∈ ls -> x ∈ concat ls.
Proof.
  intros Hx Hl. induction Hl as [l ls | l l' ls Hl IH]; simpl;
    apply elem_of_app; auto.
Qed.

(** The pieces of a sorted list are sorted. *)
Lemma StronglySorted_concat (R : relation A) ls :
  StronglySorted R (concat ls) -> Forall (StronglySorted R) ls.
Proof.
  induction ls as [|l ls IH]; simpl; [constructor |].
  rewrite StronglySorted_app. intros (Hcross & Hl & Hls).
  constructor; auto.
Qed.

Lemma batches_concat (cost : A -> nat) (full : nat -> bool) buf used l :
  concat (Convert.batches cost full buf used l) = reverse buf ++ l.
Proof.
  revert buf used. induction l as [|x l IH]; intros buf used; simpl.
  - destruct buf; simpl; [done |]. by rewrite !app_nil_r.
  - destruct (full (used + cost x)%nat); simpl.
    + rewrite IH, reverse_cons. simpl. by rewrite <- app_assoc.
    + rewrite IH, reverse_cons. by rewrite <- app_assoc.
Qed.

Lemma batches_nonempty (cost : A -> nat) (full : nat -> bool) buf used l :
  Forall (fun b => b <> []) (Convert.batches cost full buf used l).
Proof.
  assert (Hrev : forall x buf', reverse (x :: buf') <> ([] : list A)).
  { intros x buf' H. apply (f_equal length) in H.
    rewrite length_reverse in H. done. }
  revert buf used. induction l as [|x l IH]; intros buf used; simpl.
  - destruct buf; repeat constructor. apply Hrev.
  - destruct (full (used + cost x)%nat); [constructor |]; auto.
Qed.

Lemma rowGroupsOf_concat (size : nat) l :
  concat (Convert.rowGroupsOf size l) = l.
Proof. unfold Convert.rowGroupsOf. by rewrite batches_concat. Qed.

Lemma positions_lengths (start : nat) ls :
  Forall2 (fun g p => length p = length g) ls (Convert.positions start ls).
Proof.
  revert start. induction ls as [|g ls IH]; intros start; simpl;
    constructor; [apply length_seq | apply IH].
Qed.

Lemma splitInto_length (k : nat) l : length (Convert.splitInto k l) = k.
Proof. revert l. induction k as [|k IH]; intros l; simpl; [done |]. by rewrite IH. Qed.

Lemma splitInto_concat (k : nat) l :
  (0 < k)%nat -> concat (Convert.splitInto k l) = l.
Proof.
  revert l. induction k as [|k IH]; intros l Hk; [lia |].
  cbn [Convert.splitInto concat].
  destruct k as [|k].
  - cbn [Convert.splitInto concat].
    rewrite Nat.add_0_r, Nat.div_1_r, take_ge by lia.
    by rewrite app_nil_r.
  - rewrite IH by lia. apply take_drop.
Qed.

End Pieces.

Lemma pagesOf_concat (limit : nat) (values : list Parquet.Value) :
  concat (Convert.pagesOf limit values) = values.
Proof. unfold Convert.pagesOf. by rewrite batches_concat. Qed.

Lemma pagesOf_nonempty (limit : nat) (values : list Parquet.Value) :
  Forall (fun p => p <> []) (Convert.pagesOf limit values).
Proof. apply batches_nonempty. Qed.

(** ** The bounds of a page *)

Module PageFacts.
Import Parquet.

Lemma minBytes_cases (s t : string) : minBytes s t = s \/ minBytes s t = t.
Proof. unfold minBytes. destruct (String.leb s t); auto. Qed.

Lemma maxBytes_cases (s t : string) : maxBytes s t = s \/ maxBytes s t = t.
Proof. unfold maxBytes. destruct (String.leb s t); auto. Qed.

Lemma maxBytes_ub_l (s t : string) : bytesLe s (maxBytes s t).
Proof.
  unfold maxBytes. destruct (String.leb s t) eqn:H; [exact H | reflexivity].
Qed.

Lemma maxBytes_ub_r (s t : string) : bytesLe t (maxBytes s t).
Proof.
  unfold maxBytes. destruct (String.leb s t) eqn:H; [reflexivity |].
  destruct (bytesLe_total s t) as [Hst|Hts]; [|done].
  unfold bytesLe in Hst. congruence.
Qed.

Lemma foldr_minBytes_in (v : string) (vs : list string) :
  foldr minBytes v vs ∈ v :: vs.
Proof.
  induction vs as [|w vs IH]; simpl; [apply list_elem_of_here |].
  destruct (minBytes_cases w (foldr minBytes v vs)) as [-> | ->].
  - apply list_elem_of_further, list_elem_of_here.
  - apply elem_of_cons in IH as [-> | IH];
      [apply list_elem_of_here | by do 2 apply list_elem_of_further].
Qed.

Lemma foldr_maxBytes_in (v : string) (vs : list string) :
  foldr maxBytes v vs ∈ v :: vs.
Proof.
  induction vs as [|w vs IH]; simpl; [apply list_elem_of_here |].
  destruct (maxBytes_cases w (foldr maxBytes v vs)) as [-> | ->].
  - apply list_elem_of_further, list_elem_of_here.
  - apply elem_of_cons in IH as [-> | IH];
      [apply list_elem_of_here | by do 2 apply list_elem_of_further].
Qed.

Lemma foldr_maxBytes_ub (v : string) (vs : list string) (s : string) :
  s ∈ v :: vs -> bytesLe s (foldr maxBytes v vs).
Proof.
  induction vs as [|w vs IH]; simpl.
  - intros ->%list_elem_of_singleton. reflexivity.
  - rewrite !elem_of_cons. intros [-> | [-> | Hs]].
    + etrans; [apply IH, list_elem_of_here | apply maxBytes_ub_r].
    + apply maxBytes_ub_l.
    + etrans; [apply IH; by apply list_elem_of_further | apply maxBytes_ub_r].
Qed.

Lemma omap_id_nil (p : Page) (v : Value) :
  omap id p = [] -> v ∈ p -> v = None.
Proof.
  intros Hnil Hv. destruct v as [s|]; [|done].
  assert (s ∈ omap id p) as Hs.
  { apply list_elem_of_omap. by exists (Some s). }
  rewrite Hnil in Hs. by apply elem_of_nil in Hs.
Qed.

(** The bounds of a page are values of the page. *)
Lemma pageMin_in (p : Page) :
  p <> [] -> exists v, v ∈ p /\ pageMin p = bytesOf v.
Proof.
  intros Hp. unfold pageMin. destruct (omap id p) as [|s vs] eqn:Hnn.
  - destruct p as [|v p]; [done |]. exists v. split; [apply list_elem_of_here |].
    by rewrite (omap_id_nil (v :: p) v Hnn (list_elem_of_here _ _)).
  - pose proof (foldr_minBytes_in s vs) as Hin. rewrite <- Hnn in Hin.
    apply list_elem_of_omap in Hin as (v & Hv & Hid). exists v.
    split; [done |]. simpl in Hid. by subst v.
Qed.

Lemma pageMax_in (p : Page) :
  p <> [] -> exists v, v ∈ p /\ pageMax p = bytesOf v.
Proof.
  intros Hp. unfold pageMax. destruct (omap id p) as [|s vs] eqn:Hnn.
  - destruct p as [|v p]; [done |]. exists v. split; [apply list_elem_of_here |].
    by rewrite (omap_id_nil (v :: p) v Hnn (list_elem_of_here _ _)).
  - pose proof (foldr_maxBytes_in s vs) as Hin. rewrite <- Hnn in Hin.
    apply list_elem_of_omap in Hin as (v & Hv & Hid). exists v.
    split; [done |]. simpl in Hid. by subst v.
Qed.

(** The upper bound of a page is above the bytes of all its values. *)
Lemma pageMax_ub (p : Page) (v : Value) :
  v ∈ p -> bytesLe (bytesOf v) (pageMax p).
Proof.
  intros Hv. destruct v as [s|]; [|apply bytesLe_empty]. simpl.
  unfold pageMax. destruct (omap id p) as [|s0 vs] eqn:Hnn.
  - by pose proof (omap_id_nil p (Some s) Hnn Hv).
  - apply foldr_maxBytes_ub. rewrite <- Hnn. apply list_elem_of_omap.
    by exists (Some s).
Qed.

(** The pages of a column in order: every page is in order, and so
    are the lower bounds and the upper bounds of the pages. *)
Lemma pages_of_sorted_column (ps : list Page) :
  Forall (fun p => p <> []) ps ->
  StronglySorted valueLe (concat ps) ->
  Forall (StronglySorted valueLe) ps
  /\ StronglySorted bytesLe (pageMin <$> ps)
  /\ StronglySorted bytesLe (pageMax <$> ps).
Proof.
  intros Hne Hsorted. split; [by apply StronglySorted_concat |].
  induction Hne as [|p ps Hp Hps IH]; simpl in *.
  { split; constructor. }
  apply StronglySorted_app in Hsorted as (Hcross & _ & Hrest).
  destruct (IH Hrest) as [IHmin IHmax].
  destruct (pageMin_in p Hp) as (vmin & Hvmin & ->).
  destruct (pageMax_in p Hp) as (vmax & Hvmax & ->).
  split; constructor; try done; apply Forall_fmap, Forall_forall;
    intros p' Hp'; simpl;
    pose proof (proj1 (Forall_forall _ _) Hps p' Hp') as Hne'.
  - destruct (pageMin_in p' Hne') as (v' & Hv' & ->).
    apply (Hcross vmin v'); [done | by eapply elem_of_concat].
  - destruct p' as [|v' p'] ; [done |].
    etrans; [|apply (pageMax_ub (v' :: p') v'), list_elem_of_here].
    apply (Hcross vmax v'); [done |].
    eapply elem_of_concat; [apply list_elem_of_here | done].
Qed.

End PageFacts.

(** ** The files of a shard *)

Module ConvertFacts.
Import TestStorage Parquet Convert.

Lemma append_inj (p s t : string) : p +:+ s = p +:+ t -> s = t.
Proof. induction p as [|c p IH]; simpl; [done |]. intros [= H]. auto. Qed.

Lemma LabelNameToColumn_inj (k1 k2 : string) :
  LabelNameToColumn k1 = LabelNameToColumn k2 -> k1 = k2.
Proof. apply append_inj. Qed.

Lemma index_column_is_no_label (k : string) :
  String.eqb LabelIndexColumn (LabelNameToColumn k) = false.
Proof. reflexivity. Qed.

Lemma indexOf_label (k : string) (names : list string) (j : nat) :
  indexOf (LabelNameToColumn k) (LabelNameToColumn <$> names) = Some j ->
  names !! j = Some k.
Proof.
  revert j. induction names as [|n names IH]; intros j; [done |].
  rewrite fmap_cons. cbn [indexOf].
  destruct (String.eqb (LabelNameToColumn n) (LabelNameToColumn k)) eqn:E.
  - apply String.eqb_eq, LabelNameToColumn_inj in E as ->. by intros [= <-].
  - destruct (indexOf _ _) as [j'|]; [|done].
    intros [= <-]. by apply IH.
Qed.

Lemma positions_length {A : Type} (start : nat) (ls : list (list A)) :
  length (positions start ls) = length ls.
Proof. by rewrite <- (Forall2_length _ _ _ (positions_lengths start ls)). Qed.

Lemma zip_positions_fst {A : Type} (ls : list (list A)) :
  (zip ls (positions O ls)).*1 = ls.
Proof. apply fst_zip. by rewrite positions_length. Qed.

Lemma zip_positions_lengths {A : Type} (ls : list (list A)) :
  Forall (fun gp => length gp.2 = length gp.1) (zip ls (positions O ls)).
Proof.
  generalize (positions_lengths O ls). generalize (positions O ls).
  intros ps H. induction H; simpl; constructor; auto.
Qed.

(** The label file of a shard has a row for every row of the shard. *)
Lemma writeLabels_rows (opts : Options) (rows : list Series) :
  FileNumRows (writeLabels opts rows) = length rows.
Proof.
  unfold FileNumRows, writeLabels. cbn [RowGroups].
  rewrite <- list_fmap_compose.
  change (NumRows ∘ _) with (length ∘ (fst : list Series * list nat -> _)).
  rewrite list_fmap_compose, zip_positions_fst, <- concat_length.
  by rewrite rowGroupsOf_concat.
Qed.

(** So has its chunk file. *)
Lemma writeChunks_rows (opts : Options) (rows : list Series) :
  ChunkFileNumRows (writeChunks opts rows) = length rows.
Proof.
  unfold ChunkFileNumRows, writeChunks. cbn [ChunkRowGroups].
  set (groups := rowGroupsOf (rowGroupSize opts) rows).
  assert (Heq : length <$> (writeChunkRowGroup <$> zip groups (positions O groups))
                = length <$> groups).
  { transitivity (length <$> (zip groups (positions O groups)).*1);
      [|by rewrite zip_positions_fst].
    rewrite <- !list_fmap_compose.
    apply Forall_fmap_ext, Forall_forall. intros [g ids] Hgp.
    pose proof (proj1 (Forall_forall _ _) (zip_positions_lengths groups)
                  _ Hgp) as Hlen.
    unfold writeChunkRowGroup, compose. simpl in *.
    rewrite length_fmap, length_zip. lia. }
  rewrite Heq, <- concat_length. unfold groups.
  by rewrite rowGroupsOf_concat.
Qed.

(** What a shard of a conversion is made of: rows in the order of the
    sort key, written to its two files. *)
Lemma convertShards_lookup (day : Z) (blocks : list Convertible)
  (opts : Options) (i : nat) (pf : File) (cf : ChunkFile) :
  convertShards day blocks opts !! i = Some (pf, cf) ->
  exists rows,
    StronglySorted (rowLe (sortBy opts)) rows
    /\ pf = writeLabels opts rows /\ cf = writeChunks opts rows.
Proof.
  unfold convertShards, shardRows. rewrite !list_lookup_fmap.
  destruct (splitInto _ _ !! i) as [rows|]; simpl; [|done].
  intros [= <- <-]. eexists. split; [apply sortRows_sorted | done].
Qed.

(** The column chunk of a label in a row group of the label file
    holds the values of that label for a run of the rows. *)
Lemma label_column_chunk (opts : Options) (rows : list Series) (k : string)
  (j lc : nat) (rg : RowGroup) (cc : ColumnChunk) :
  RowGroups (writeLabels opts rows) !! j = Some rg ->
  SchemaLookup (writeLabels opts rows) (LabelNameToColumn k) = Some lc ->
  ColumnChunks rg !! lc = Some cc ->
  exists g,
    g ∈ rowGroupsOf (rowGroupSize opts) rows
    /\ cc = writeColumn (labelPageBufferSize opts)
              ((fun s => Labels.Lookup (lset s) k) <$> g).
Proof.
  unfold SchemaLookup, writeLabels. cbn [RowGroups Schema indexOf].
  rewrite index_column_is_no_label, list_lookup_fmap.
  destruct (zip _ _ !! j) as [[g ids]|] eqn:Hzip; simpl; [|done].
  intros [= <-].
  destruct (indexOf _ _) as [n|] eqn:Hidx; simpl; [|done].
  intros [= <-]. simpl. apply indexOf_label in Hidx.
  rewrite list_lookup_fmap, Hidx. simpl. intros [= <-].
  exists g. split; [|done].
  apply list_elem_of_lookup_2 in Hzip. by apply elem_of_zip_l in Hzip.
Qed.

(** Both files of a shard have the rows of the shard. *)
Lemma shard_files_rows (day : Z) (blocks : list Convertible)
  (opts : Options) (i : nat) (pf : File) (cf : ChunkFile) :
  convertShards day blocks opts !! i = Some (pf, cf) ->
  exists rows,
    shardRows opts (collect day blocks) !! i = Some rows
    /\ FileNumRows pf = length rows /\ ChunkFileNumRows cf = length rows.
Proof.
  unfold convertShards. rewrite list_lookup_fmap.
  destruct (shardRows _ _ !! i) as [rows|]; simpl; [|done].
  intros [= <- <-]. exists rows.
  by rewrite writeLabels_rows, writeChunks_rows.
Qed.

(** C2.  For every conversion and every shard of it, the label file
    and the chunk file written for the shard have the same number of
    rows. *)
Theorem label_and_chunk_rows_agree (day : Z) (blocks : list Convertible)
  (opts : Options) (i : nat) (pf : File) (cf : ChunkFile) :
  convertShards day blocks opts !! i = Some (pf, cf) ->
  FileNumRows pf = ChunkFileNumRows cf.
Proof.
  intros (rows & _ & Hl & Hc)%shard_files_rows. congruence.
Qed.

Lemma sort_key_values_sorted (opts : Options) (k : string) (ks : list string)
  (rows g : list Series) :
  sortBy opts = k :: ks ->
  StronglySorted (rowLe (sortBy opts)) rows ->
  g ∈ rowGroupsOf (rowGroupSize opts) rows ->
  StronglySorted valueLe ((fun s => Labels.Lookup (lset s) k) <$> g).
Proof.
  intros Hsort Hrows Hg.
  rewrite <- (rowGroupsOf_concat (rowGroupSize opts) rows) in Hrows.
  apply StronglySorted_concat in Hrows.
  pose proof (proj1 (Forall_forall _ _) Hrows g Hg) as Hsorted.
  eapply StronglySorted_fmap; [|exact Hsorted].
  intros s1 s2. rewrite Hsort. apply rowLe_first_key.
Qed.

Lemma sort_key_chunk_sorted (day : Z) (blocks : list Convertible)
  (opts : Options) (k : string) (ks : list string) (i j lc : nat)
  (pf : File) (cf : ChunkFile) (rg : RowGroup) (cc : ColumnChunk) :
  sortBy opts = k :: ks ->
  convertShards day blocks opts !! i = Some (pf, cf) ->
  RowGroups pf !! j = Some rg ->
  SchemaLookup pf (LabelNameToColumn k) = Some lc ->
  ColumnChunks rg !! lc = Some cc ->
  Forall (StronglySorted valueLe) (Pages cc)
  /\ StronglySorted bytesLe (MinValues (Index cc))
  /\ StronglySorted bytesLe (MaxValues (Index cc)).
Proof.
  intros Hsort (rows & Hrows & -> & ->)%convertShards_lookup Hrg Hlc Hcc.
  destruct (label_column_chunk opts rows k j lc rg cc Hrg Hlc Hcc)
    as (g & Hg & ->).
  cbn [writeColumn Pages Index indexPages MinValues MaxValues].
  apply PageFacts.pages_of_sorted_column; [apply pagesOf_nonempty |].
  rewrite pagesOf_concat. by eapply sort_key_values_sorted.
Qed.

(** C3.  In every label file of a conversion and every row group of
    it, the column of the (first) sort-key label has its values in
    non-decreasing order within each page, and when it has more than
    one page the lower bounds and the upper bounds of its pages are in
    non-decreasing order too. *)
Theorem sort_key_column_is_monotone (day : Z) (blocks : list Convertible)
  (opts : Options) (k : string) (ks : list string) (i j lc : nat)
  (pf : File) (cf : ChunkFile) (rg : RowGroup) (cc : ColumnChunk) :
  sortBy opts = k :: ks ->
  convertShards day blocks opts !! i = Some (pf, cf) ->
  RowGroups pf !! j = Some rg ->
  SchemaLookup pf (LabelNameToColumn k) = Some lc ->
  ColumnChunks rg !! lc = Some cc ->
  Forall (StronglySorted valueLe) (Pages cc)
  /\ ((1 < NumPages (Index cc))%nat ->
      StronglySorted bytesLe (MinValues (Index cc))
      /\ StronglySorted bytesLe (MaxValues (Index cc))).
Proof.
  intros Hsort Hshard Hrg Hlc Hcc.
  destruct (sort_key_chunk_sorted day blocks opts k ks i j lc pf cf rg cc
              Hsort Hshard Hrg Hlc Hcc) as (Hpages & Hmin & Hmax).
  split; [done |]. intros _. by split.
Qed.

(** Row-count conservation: with at least one shard, the rows of the
    shards are as many as the series collected for the day. *)
Lemma rows_are_conserved (day : Z) (blocks : list Convertible)
  (opts : Options) :
  (0 < rowGroupCount opts)%nat ->
  sum_list ((fun files => FileNumRows files.1)
              <$> convertShards day blocks opts)
  = length (collect day blocks).
Proof.
  intros Hk. unfold convertShards, shardRows.
  rewrite <- !list_fmap_compose.
  erewrite (list_fmap_ext _ length).
  2: { intros _ rows _. unfold compose. simpl.
       by rewrite writeLabels_rows, sortRows_length. }
  by rewrite <- concat_length, splitInto_concat, sortRows_length.
Qed.

End ConvertFacts.

(** ** The checks of the test on the files of a conversion *)

Module CheckFacts.
Import TestStorage Parquet Convert ConvertTest ConvertFacts.

Lemma firstError_None {A : Type} (f : A -> option error) (l : list A) :
  (forall x, x ∈ l -> f x = None) -> firstError f l = None.
Proof.
  induction l as [|x l IH]; intros Hf; simpl; [done |].
  rewrite (Hf x) by apply list_elem_of_here.
  apply IH. intros y Hy. apply Hf. by apply list_elem_of_further.
Qed.

Lemma vwf_sorted (vs : list Value) : StronglySorted valueLe vs -> vwf vs = None.
Proof.
  induction 1 as [|v vs Hvs IH Hv]; [done |].
  destruct vs as [|v' vs]; [done |]. cbn [vwf].
  apply Forall_cons in Hv as [Hv _].
  by rewrite (bool_decide_eq_true_2 _ Hv).
Qed.

Lemma CopyValues_sorted (bufferSize : nat) (p : Page) :
  StronglySorted valueLe p -> CopyValues bufferSize p = None.
Proof.
  intros Hp. apply firstError_None. intros b Hb. apply vwf_sorted.
  rewrite <- (rowGroupsOf_concat bufferSize p) in Hp.
  apply StronglySorted_concat in Hp.
  by apply (proj1 (Forall_forall _ _) Hp).
Qed.

(** Every row group of a label file has a chunk for every column of
    a label in the schema. *)
Lemma label_column_chunk_exists (opts : Options) (rows : list Series)
  (k : string) (lc : nat) (rg : RowGroup) :
  rg ∈ RowGroups (writeLabels opts rows) ->
  SchemaLookup (writeLabels opts rows) (LabelNameToColumn k) = Some lc ->
  is_Some (ColumnChunks rg !! lc).
Proof.
  unfold SchemaLookup, writeLabels. cbn [RowGroups Schema indexOf].
  rewrite index_column_is_no_label.
  intros (gp & -> & _)%list_elem_of_fmap.
  destruct (indexOf _ _) as [n|] eqn:Hidx; simpl; [|done].
  intros [= <-]. simpl. apply indexOf_label in Hidx.
  rewrite list_lookup_fmap, Hidx. by eexists.
Qed.

(** [nameColumnPageBoundsAreAscending] passes on the label file of
    every shard sorted by the metric name; a shard without any metric
    name has no such column. *)
Lemma bounds_check_passes (day : Z) (blocks : list Convertible)
  (opts : Options) (ks : list string) (i : nat) (pf : File) (cf : ChunkFile) :
  sortBy opts = Labels.MetricName :: ks ->
  convertShards day blocks opts !! i = Some (pf, cf) ->
  is_Some (SchemaLookup pf (LabelNameToColumn Labels.MetricName)) ->
  nameColumnPageBoundsAreAscending pf = None.
Proof.
  intros Hsort Hshard [lc Hlc]. unfold nameColumnPageBoundsAreAscending.
  rewrite Hlc. apply firstError_None. intros rg Hrg.
  pose proof Hshard as (rows & _ & -> & _)%convertShards_lookup.
  destruct (label_column_chunk_exists opts rows _ lc rg Hrg Hlc) as [cc Hcc].
  rewrite Hcc. apply list_elem_of_lookup_1 in Hrg as [j Hj].
  destruct (sort_key_chunk_sorted day blocks opts _ ks i j lc _ cf rg cc
              Hsort Hshard Hj Hlc Hcc) as (_ & Hmin & Hmax).
  unfold IsAscending.
  rewrite (bool_decide_eq_true_2 _ Hmin), (bool_decide_eq_true_2 _ Hmax).
  by destruct (bool_decide _).
Qed.

(** [nameColumnValuesAreIncreasing] passes on it too, whatever the
    size of the copy buffer. *)
Lemma values_check_passes (day : Z) (blocks : list Convertible)
  (opts : Options) (ks : list string) (i bufferSize : nat)
  (pf : File) (cf : ChunkFile) :
  sortBy opts = Labels.MetricName :: ks ->
  convertShards day blocks opts !! i = Some (pf, cf) ->
  is_Some (SchemaLookup pf (LabelNameToColumn Labels.MetricName)) ->
  nameColumnValuesAreIncreasing bufferSize pf = None.
Proof.
  intros Hsort Hshard [lc Hlc]. unfold nameColumnValuesAreIncreasing.
  rewrite Hlc. apply firstError_None. intros rg Hrg.
  pose proof Hshard as (rows & _ & -> & _)%convertShards_lookup.
  destruct (label_column_chunk_exists opts rows _ lc rg Hrg Hlc) as [cc Hcc].
  rewrite Hcc. apply list_elem_of_lookup_1 in Hrg as [j Hj].
  destruct (sort_key_chunk_sorted day blocks opts _ ks i j lc _ cf rg cc
              Hsort Hshard Hj Hlc Hcc) as (Hpages & _ & _).
  rewrite firstError_None; [done |]. intros p Hp.
  apply CopyValues_sorted. by apply (proj1 (Forall_forall _ _) Hpages).
Qed.

End CheckFacts.

(** ** Decimal rendering *)

Module DecimalFacts.
Import Decimal.

Lemma digit_value (d : nat) : (d < 10)%nat -> (nat_of_ascii (digit d) - 48 = d)%nat.
Proof.
  intros Hd. unfold digit. rewrite nat_ascii_embedding by lia. lia.
Qed.

Lemma render_parse (fuel n : nat) (acc : string) (a : nat) :
  (n < fuel)%nat ->
  exists k, parse a (render fuel n acc) = parse (a * 10 ^ k + n)%nat acc.
Proof.
  revert n acc. induction fuel as [|fuel IH]; intros n acc Hn; [lia |].
  cbn [render].
  pose proof (Nat.div_mod_eq n 10) as Hdm.
  pose proof (Nat.mod_upper_bound n 10 ltac:(lia)) as Hmod.
  destruct (n / 10)%nat as [|q] eqn:Hq.
  - exists 1%nat. cbn [parse]. rewrite digit_value by done. f_equal.
    rewrite Nat.pow_1_r. lia.
  - assert (Hlt : (S q < fuel)%nat) by lia.
    destruct (IH (S q) (String (digit (n mod 10)) acc) Hlt) as [k Hk].
    exists (S k). rewrite Hk. cbn [parse]. rewrite digit_value by done.
    f_equal. rewrite Nat.pow_succ_r'. lia.
Qed.

Lemma parse_itoa (n : nat) : parse 0 (itoa n) = n.
Proof.
  unfold itoa. destruct (render_parse (S n) n "" 0 (Nat.lt_succ_diag_r n)) as [k ->].
  simpl. lia.
Qed.

Lemma itoa_inj (n m : nat) : itoa n = itoa m -> n = m.
Proof. intros H. by rewrite <- (parse_itoa n), <- (parse_itoa m), H. Qed.

End DecimalFacts.

(** ** The head block of the test *)

Module HeadFacts.
Import TestStorage Convert ConvertTest.

Lemma Equal_refl (a : Labels.Labels) : Labels.Equal a a = true.
Proof.
  induction a as [|[n v] a IH]; simpl; [done |].
  by rewrite !String.eqb_refl, IH.
Qed.

Lemma Equal_eq (a b : Labels.Labels) : Labels.Equal a b = true -> a = b.
Proof.
  revert b. induction a as [|[n v] a IH]; intros [|[n' v'] b]; simpl; try done.
  rewrite !andb_true_iff. intros [[Hn Hv] Hab].
  apply String.eqb_eq in Hn, Hv. by rewrite Hn, Hv, (IH b Hab).
Qed.

Lemma Equal_neq (a b : Labels.Labels) : a <> b -> Labels.Equal a b = false.
Proof.
  intros Hne. destruct (Labels.Equal a b) eqn:E; [|done].
  by apply Equal_eq in E.
Qed.

(** The labels of the test series, in the order of their names. *)
Lemma seriesLabels_sorted (i : nat) :
  seriesLabels i
  = [("__name__", "foo_" +:+ Decimal.itoa (i / 10));
     ("col_" +:+ Decimal.itoa (i / 100), Decimal.itoa (2 * i))].
Proof. reflexivity. Qed.

Lemma seriesLabels_inj (i j : nat) : seriesLabels i = seriesLabels j -> i = j.
Proof.
  rewrite !seriesLabels_sorted. intros [= _ _ H].
  apply DecimalFacts.itoa_inj in H. lia.
Qed.

Global Instance seriesLabels_Inj : Inj (=) (=) seriesLabels.
Proof. intros i j. apply seriesLabels_inj. Qed.

Lemma addSample_miss (l : Labels.Labels) (smp : Sample) (h : Head) :
  l ∉ lset <$> h -> addSample l smp h = None.
Proof.
  induction h as [|s h IH]; simpl; [done |].
  rewrite not_elem_of_cons. intros [Hne Hnin].
  rewrite Equal_neq by done. by rewrite IH.
Qed.

(** Appending [S k] samples for labels the head does not have adds one
    series with these samples. *)
Lemma iter_Append_new (k : nat) (l : Labels.Labels) (t v : Z) (h : Head) :
  l ∉ lset <$> h ->
  Nat.iter (S k) (Append l t v) h
  = {| lset := l; samples := replicate (S k) (t, v) |} :: h.
Proof.
  intros Hnew. induction k as [|k IH].
  - simpl. unfold Append. by rewrite addSample_miss.
  - rewrite Nat.iter_succ, IH. unfold Append. cbn [addSample lset samples].
    by rewrite Equal_refl.
Qed.

Lemma head_after (n : nat) :
  foldl appendSeries [] (seq 0 n) = reverse (testSeries <$> seq 0 n).
Proof.
  induction n as [|n IH]; [done |].
  rewrite seq_S, foldl_app, IH, fmap_app, reverse_app. simpl.
  unfold appendSeries at 1. change 120%nat with (S 119).
  rewrite iter_Append_new; [done |].
  rewrite fmap_reverse, elem_of_reverse, <- list_fmap_compose.
  intros (i & Heq & Hi)%list_elem_of_fmap. apply elem_of_seq in Hi.
  apply seriesLabels_inj in Heq. lia.
Qed.

Lemma testHead_series : testHead = reverse (testSeries <$> seq 0 1000).
Proof. apply head_after. Qed.

Local Opaque testHead.

Lemma testHead_labels : lset <$> testHead = reverse (seriesLabels <$> seq 0 1000).
Proof.
  by rewrite testHead_series, fmap_reverse, <- list_fmap_compose.
Qed.

Lemma testHead_NumSeries : NumSeries testHead = 1000%nat.
Proof.
  unfold NumSeries.
  by rewrite testHead_series, length_reverse, length_fmap, length_seq.
Qed.

Lemma testHead_distinct : NoDup (lset <$> testHead).
Proof.
  rewrite testHead_labels, reverse_Permutation.
  apply NoDup_fmap_2; [apply _ | apply NoDup_seq].
Qed.

Lemma testHead_samples (s : Series) :
  s ∈ testHead -> exists v, samples s = replicate 120 (1000, v).
Proof.
  rewrite testHead_series, elem_of_reverse.
  intros (i & -> & _)%list_elem_of_fmap. by eexists.
Qed.

Lemma foldr_min_const (t : Z) (l : list Z) :
  Forall (fun x => x = t) l -> l <> [] -> t <= MaxInt64 ->
  foldr Z.min MaxInt64 l = t.
Proof.
  intros Hall Hne Ht. induction Hall as [|x l -> Hl IH]; [done |].
  simpl. destruct l as [|y l]; simpl in *; [lia |].
  rewrite IH by done. lia.
Qed.

Lemma testHead_MinTime : MinTime testHead = 1000.
Proof.
  unfold MinTime. apply foldr_min_const; [| |done].
  - apply Forall_forall. intros t (s & Ht & Hs)%list_elem_of_bind.
    destruct (testHead_samples s Hs) as [v Hv]. rewrite Hv in Ht.
    apply list_elem_of_fmap in Ht as ([t' v'] & -> & Hin).
    apply elem_of_replicate in Hin as [[= <- <-] _]. done.
  - rewrite testHead_series. change 1000%nat with (S 999).
    rewrite seq_S, fmap_app, reverse_app. done.
Qed.

Lemma testDay_epoch : testDay = 0.
Proof. unfold testDay. by rewrite testHead_MinTime. Qed.

(** A series with new labels is collected as it is. *)
Lemma mergeSeries_new (s : Series) (acc : list Series) :
  lset s ∉ lset <$> acc -> mergeSeries s acc = acc ++ [s].
Proof.
  induction acc as [|s' acc IH]; simpl; [done |].
  rewrite not_elem_of_cons. intros [Hne Hnin].
  rewrite Equal_neq by done. by rewrite IH.
Qed.

Lemma foldl_mergeSeries_distinct (l acc : list Series) :
  NoDup (lset <$> acc ++ l) ->
  foldl (fun acc s => mergeSeries s acc) acc l = acc ++ l.
Proof.
  revert acc. induction l as [|s l IH]; intros acc Hnd; simpl.
  { by rewrite app_nil_r. }
  rewrite mergeSeries_new.
  - rewrite IH; [by rewrite <- app_assoc | by rewrite <- app_assoc].
  - rewrite fmap_app in Hnd. apply NoDup_app in Hnd as (_ & Hdisj & _).
    intros Hin. apply (Hdisj _ Hin). simpl. apply list_elem_of_here.
Qed.

(** A block whose series have distinct label sets and all their samples
    within the day, at least one each, is collected as it is. *)
Lemma collect_single (day : Z) (h : Head) :
  Forall (fun s => Forall (inDay day) (samples s) /\ samples s <> []) h ->
  NoDup (lset <$> h) ->
  collect day [h] = h.
Proof.
  intros Hall Hnd. unfold collect. simpl. rewrite app_nil_r.
  assert (Hsame : withinDay day <$> h = h).
  { rewrite <- (list_fmap_id h) at 2.
    apply Forall_fmap_ext. eapply Forall_impl; [exact Hall |].
    intros [l smps] [Hin _]. unfold withinDay. simpl in *. f_equal.
    induction Hin as [|smp smps Hsmp Hin IH]; [done |].
    by rewrite filter_cons_True, IH. }
  rewrite Hsame.
  assert (Hkeep : List.filter hasSamples h = h).
  { apply forallb_filter_id, forallb_forall. intros s Hs.
    apply list_elem_of_In in Hs.
    destruct (proj1 (Forall_forall _ _) Hall s Hs) as [_ Hne].
    unfold hasSamples. by destruct (samples s). }
  rewrite Hkeep. by apply (foldl_mergeSeries_distinct h []).
Qed.

Lemma collect_testHead : collect testDay [testHead] = testHead.
Proof.
  rewrite testDay_epoch. apply collect_single; [|apply testHead_distinct].
  apply Forall_forall. intros s Hs.
  destruct (testHead_samples s Hs) as [v ->]. split.
  - apply Forall_forall. intros smp Hsmp.
    apply elem_of_replicate in Hsmp as [-> _].
    unfold inDay, dayMillis. simpl. lia.
  - change 120%nat with (S 119). discriminate.
Qed.

End HeadFacts.

(** ** The objects of a converted block *)

Module BucketFacts.
Import TestStorage Parquet Convert ConvertTest ConvertFacts.

Lemma putShard_noMeta (name : string) (bkt : BucketState)
  (shard : nat * (File * ChunkFile)) :
  noMeta bkt -> noMeta (putShard name bkt shard).
Proof.
  intros H. unfold putShard. by repeat apply map_Forall_insert_2.
Qed.

Lemma foldl_putShard_noMeta (name : string)
  (shards : list (nat * (File * ChunkFile))) (bkt : BucketState) :
  noMeta bkt -> noMeta (foldl (putShard name) bkt shards).
Proof.
  revert bkt. induction shards as [|sh shards IH]; intros bkt H; simpl;
    [done |]. by apply IH, putShard_noMeta.
Qed.

Lemma omap_all_None {A B : Type} (f : A -> option B) (l : list A) :
  Forall (fun x => f x = None) l -> omap f l = [].
Proof. induction 1 as [|x l Hx _ IH]; simpl; [done |]. by rewrite Hx. Qed.

(** After a conversion into a bucket without Metas the discoverer finds
    the Meta of the block and nothing else. *)
Lemma Discover_converted (bkt : BucketState) (day : Z)
  (blocks : list Convertible) (opts : Options) :
  noMeta bkt ->
  Discover (ConvertTSDBBlock bkt day blocks opts)
  = {[ BlockNameForDay day :=
         blockMeta day (collect day blocks)
           (length (convertShards day blocks opts)) ]}.
Proof.
  intros Hbkt. unfold ConvertTSDBBlock. cbv zeta.
  set (name := BlockNameForDay day).
  set (meta := blockMeta day _ _).
  set (bkt' := foldl _ _ _).
  assert (Hbkt' : noMeta bkt') by by apply foldl_putShard_noMeta.
  rewrite <- insert_delete_eq. unfold Discover.
  set (f := fun kv : string * Object => _).
  assert (Hlist : omap f (map_to_list
                            (<[MetaFileNameForBlock name := ObjMeta meta]>
                               (delete (MetaFileNameForBlock name) bkt')))
                  = [(name, meta)]).
  { apply Permutation_singleton_r.
    rewrite map_to_list_insert by apply lookup_delete_eq.
    simpl. unfold f at 1. simpl. fold name. rewrite String.eqb_refl.
    rewrite omap_all_None; [done |].
    apply Forall_forall. intros [k o] Hko.
    apply elem_of_map_to_list, lookup_delete_Some in Hko as [_ Hko].
    pose proof (map_Forall_lookup_1 _ _ _ _ Hbkt' Hko) as Ho.
    unfold f. simpl. destruct o as [pf|cf|m]; [done | done |].
    by destruct (Ho m). }
  rewrite Hlist. simpl. by rewrite insert_empty.
Qed.

Lemma convertShards_length (day : Z) (blocks : list Convertible)
  (opts : Options) :
  length (convertShards day blocks opts) = rowGroupCount opts.
Proof.
  unfold convertShards, shardRows.
  by rewrite !length_fmap, splitInto_length.
Qed.

Lemma key_differs (name s t : string) : s <> t -> name +:+ s <> name +:+ t.
Proof. intros Hne H. by apply append_inj in H. Qed.

(** The four files of a block of two shards are under their names. *)
Lemma two_shards_load (bkt : BucketState) (name : string)
  (f0 f1 : File * ChunkFile) (m : Meta) :
  let bkt' :=
    <[MetaFileNameForBlock name := ObjMeta m]>
      (foldl (putShard name) bkt (zip (seq 0 2) [f0; f1])) in
  loadLabels bkt' name 0 = Some f0.1
  /\ loadChunks bkt' name 0 = Some f0.2
  /\ loadLabels bkt' name 1 = Some f1.1
  /\ loadChunks bkt' name 1 = Some f1.2.
Proof.
  unfold loadLabels, loadChunks, putShard, MetaFileNameForBlock,
    LabelsPfileNameForShard, ChunksPfileNameForShard.
  cbn [foldl zip zip_with seq fst snd].
  repeat split;
    repeat (rewrite lookup_insert_ne by (by apply key_differs));
    by rewrite lookup_insert_eq.
Qed.

End BucketFacts.

(** ** The scenario of the test *)

Module ScenarioFacts.
Import TestStorage Parquet Convert ConvertTest ConvertFacts BucketFacts.

Lemma testBucket_two_shards (f0 f1 : File * ChunkFile) :
  convertShards testDay [testHead] testOptions = [f0; f1] ->
  testBucket
  = <[MetaFileNameForBlock (BlockNameForDay testDay) :=
        ObjMeta (blockMeta testDay (collect testDay [testHead]) 2)]>
      (foldl (putShard (BlockNameForDay testDay)) ∅ (zip (seq 0 2) [f0; f1])).
Proof.
  intros Hfiles. unfold testBucket, ConvertTSDBBlock. by rewrite Hfiles.
Qed.

Lemma testBucket_metas :
  Discover testBucket
  = {[ BlockNameForDay testDay :=
         blockMeta testDay (collect testDay [testHead]) 2 ]}.
Proof.
  unfold testBucket. rewrite Discover_converted by apply map_Forall_empty.
  by rewrite convertShards_length.
Qed.

Local Opaque testHead testDay testBucket.

(** C1.  The head of the test has 1000 series with distinct label
    sets; converting it for its day with the options of the test
    leaves exactly one Meta in the bucket, of 2 shards; the label file
    and the chunk file of either shard have the same number of rows,
    and the rows of the two shards add up to 1000. *)
Theorem test_conversion_scenario :
  NumSeries testHead = 1000%nat /\
  NoDup (lset <$> testHead) /\
  exists meta : Meta,
    Discover testBucket = {[ metaName meta := meta ]} /\
    metaShards meta = 2 /\
    exists lf0 cf0 lf1 cf1,
      loadLabels testBucket (metaName meta) 0 = Some lf0 /\
      loadChunks testBucket (metaName meta) 0 = Some cf0 /\
      loadLabels testBucket (metaName meta) 1 = Some lf1 /\
      loadChunks testBucket (metaName meta) 1 = Some cf1 /\
      FileNumRows lf0 = ChunkFileNumRows cf0 /\
      FileNumRows lf1 = ChunkFileNumRows cf1 /\
      (FileNumRows lf0 + FileNumRows lf1 = 1000)%nat.
Proof.
  split; [apply HeadFacts.testHead_NumSeries |].
  split; [apply HeadFacts.testHead_distinct |].
  pose proof (convertShards_length testDay [testHead] testOptions) as Hlen.
  pose proof (rows_are_conserved testDay [testHead] testOptions) as Hrows.
  pose proof (shard_files_rows testDay [testHead] testOptions) as Hagree.
  rewrite HeadFacts.collect_testHead in Hrows.
  fold (NumSeries testHead) in Hrows.
  rewrite HeadFacts.testHead_NumSeries in Hrows.
  destruct (convertShards testDay [testHead] testOptions)
    as [|[lf0 cf0] [|[lf1 cf1] [|f2 files]]] eqn:Hfiles;
    try discriminate Hlen.
  exists (blockMeta testDay (collect testDay [testHead]) 2).
  cbn [blockMeta metaName metaShards].
  split; [apply testBucket_metas |]. split; [reflexivity |].
  exists lf0, cf0, lf1, cf1.
  rewrite (testBucket_two_shards _ _ Hfiles).
  destruct (two_shards_load ∅ (BlockNameForDay testDay) (lf0, cf0) (lf1, cf1)
              (blockMeta testDay (collect testDay [testHead]) 2))
    as (Hl0 & Hc0 & Hl1 & Hc1).
  split; [exact Hl0 |]. split; [exact Hc0 |].
  split; [exact Hl1 |]. split; [exact Hc1 |].
  destruct (Hagree 0%nat lf0 cf0 eq_refl) as (rows0 & _ & Hlf0 & Hcf0).
  destruct (Hagree 1%nat lf1 cf1 eq_refl) as (rows1 & _ & Hlf1 & Hcf1).
  split; [congruence |]. split; [congruence |].
  assert (Hshards : (0 < rowGroupCount testOptions)%nat) by (cbn; lia).
  specialize (Hrows Hshards).
  cbn [fmap list_fmap sum_list sum_list_with fst] in Hrows.
  unfold id in Hrows. lia.
Qed.

End ScenarioFacts.

(** ** The properties at the small conversion *)

Lemma label_and_chunk_rows_witness :
  Parquet.FileNumRows Small.shard.1 = Convert.ChunkFileNumRows Small.shard.2.
Proof.
  apply (ConvertFacts.label_and_chunk_rows_agree 0 [Small.head] Small.options
           0 Small.shard.1 Small.shard.2).
  vm_compute. reflexivity.
Defined.

Lemma sort_key_column_witness :
  Forall (StronglySorted Parquet.valueLe) (Parquet.Pages Small.nameChunk)
  /\ ((1 < Parquet.NumPages (Parquet.Index Small.nameChunk))%nat ->
      StronglySorted bytesLe (Parquet.MinValues (Parquet.Index Small.nameChunk))
      /\ StronglySorted bytesLe
           (Parquet.MaxValues (Parquet.Index Small.nameChunk))).
Proof.
  apply (ConvertFacts.sort_key_column_is_monotone 0 [Small.head] Small.options
           Labels.MetricName [] 0 0 1 Small.shard.1 Small.shard.2
           Small.rowGroup Small.nameChunk).
  - reflexivity.
  - vm_compute. reflexivity.
  - vm_compute. reflexivity.
  - vm_compute. reflexivity.
  - vm_compute. reflexivity.
Defined.

(** * More properties of the wiring *)

Section BucketEffects.

Context (E : Externals).


(** X2.  The options of the other backend are not read: with the
    filesystem backend the S3 options and the number of retries make
    no difference, with the S3 backend the filesystem directory makes
    none. *)
Theorem setupBucket_reads_its_backend_only (opts opts' : bucketOpts) :
  storage opts' = storage opts ->
  prefix opts' = prefix opts ->
  let prov := Strings.ToUpper (unicodeUpper E) (storage opts) in
  (prov = FILESYSTEM ->
   filesystemDirectory opts' = filesystemDirectory opts ->
   setupBucket E opts' = setupBucket E opts)
  /\ (prov = S3 ->
      s3Bucket opts' = s3Bucket opts -> s3Endpoint opts' = s3Endpoint opts ->
      s3AccessKey opts' = s3AccessKey opts ->
      s3SecretKey opts' = s3SecretKey opts ->
      s3Insecure opts' = s3Insecure opts -> retries opts' = retries opts ->
      setupBucket E opts' = setupBucket E opts).
Proof.
  intros Hst Hpre prov. unfold setupBucket. rewrite Hst, Hpre. fold prov.
  split.
  - intros -> Hdir. unfold subConfigFor. simpl. by rewrite Hdir.
  - intros -> Hb He Ha Hs Hi Hr. unfold subConfigFor. simpl.
    by rewrite Hb, He, Ha, Hs, Hi, Hr.
Qed.

End BucketEffects.

(** ** setupTracing *)

Section TracingFacts.

Context (T : TracingExternals).

Ltac in_list :=
  repeat first [apply list_elem_of_here | apply list_elem_of_further].

Lemma newExporter_call (opts : tracingOpts (float64 T))
  (new : M (TracingSt T) (result (SpanExporter T))) (s : TracingSt T) :
  newExporter T opts = Some new ->
  tprovider (new s).2 = tprovider s
  /\ exists c, tcalls (new s).2 = tcalls s ++ [c]
               /\ (c = CallJaegerNew (jaegerEndpoint opts) \/ c = CallStdoutNew).
Proof.
  unfold newExporter.
  destruct (String.eqb (exporterType opts) "JAEGER").
  - intros [= <-]. unfold tracingExternal.
    destruct (jaegerNew T _ _) as [r w]. simpl. eauto.
  - destruct (String.eqb (exporterType opts) "STDOUT"); [|done].
    intros [= <-]. unfold tracingExternal.
    destruct (stdouttraceNew T _) as [r w]. simpl. eauto.
Qed.


(** X4.  The exporter type is checked first and as it is written: a
    type other than JAEGER and STDOUT (in upper case) is an error that
    leaves everything as it was, whatever the sampling type.  The
    sampling type is checked only after the exporter was made: when it
    is unknown the error is returned with the exporter already created,
    and no resource is made. *)
Theorem setupTracing_checks_exporter_first (ctx : Context)
  (opts : tracingOpts (float64 T)) (s : TracingSt T) :
  (exporterType opts ∉ ["JAEGER"; "STDOUT"] ->
   setupTracing T ctx opts s
   = (Some (Errorf ("invalid exporter type " +:+ exporterType opts)), s))
  /\ (forall new exporter,
         newExporter T opts = Some new ->
         (new s).1 = Ok exporter ->
         samplingType opts ∉ ["PROBABILISTIC"; "ALWAYS"; "NEVER"] ->
         setupTracing T ctx opts s
         = (Some (Errorf ("invalid sampling type " +:+ samplingType opts)),
            (new s).2)
         /\ exists c, tcalls (new s).2 = tcalls s ++ [c]
                      /\ (c = CallJaegerNew (jaegerEndpoint opts)
                          \/ c = CallStdoutNew)).
Proof.
  split.
  - intros Hty. unfold setupTracing, newExporter.
    rewrite !String_eqb_false; [done | |]; intros Heq; apply Hty;
      rewrite Heq; in_list.
  - intros new exporter Hnew Hok Hty.
    destruct (newExporter_call opts new s Hnew) as (_ & c & Hcalls & Hc).
    split; [|by exists c].
    unfold setupTracing. rewrite Hnew. unfold bind.
    destruct (new s) as [r s1]. simpl in *. subst r.
    unfold newSampler.
    rewrite !String_eqb_false; [done | | |]; intros Heq; apply Hty;
      rewrite Heq; in_list.
Qed.

(** X5.  The sampling parameter is read for the PROBABILISTIC sampler
    only, and the Jaeger endpoint for the JAEGER exporter only. *)
Theorem setupTracing_unused_options (ctx : Context)
  (opts : tracingOpts (float64 T)) (param : float64 T) (endpoint : string) :
  (samplingType opts <> "PROBABILISTIC" ->
   setupTracing T ctx (withSampling param (jaegerEndpoint opts) opts)
   = setupTracing T ctx opts)
  /\ (exporterType opts <> "JAEGER" ->
      setupTracing T ctx (withSampling (samplingParam opts) endpoint opts)
      = setupTracing T ctx opts).
Proof.
  split; intros Hne; unfold setupTracing, newExporter, newSampler; simpl;
    by rewrite (String_eqb_false _ _ Hne).
Qed.

End TracingFacts.

(** ** The loops and their contexts *)

Section LoopFacts.

Context (E : Externals).













End LoopFacts.

(** * More properties of the checks of the test *)

Module TestCheckFacts.
Import TestStorage Parquet Convert ConvertTest MoreChecks.

Lemma firstError_None_iff {A : Type} (f : A -> option error) (l : list A) :
  firstError f l = None <-> Forall (fun x => f x = None) l.
Proof.
  induction l as [|x l IH]; simpl.
  - split; [constructor | done].
  - rewrite Forall_cons. destruct (f x) as [e|]; [|tauto].
    split; [done | by intros [? _]].
Qed.

(** X8.  The value writer of [nameColumnValuesAreIncreasing] returns
    nil exactly on the batches in which no value is followed by a
    smaller one; a batch of no value or of one value always passes. *)
Theorem vwf_accepts_the_ordered_batches (vs : list Value) :
  vwf vs = None <-> Sorted valueLe vs.
Proof.
  induction vs as [|v vs IH]; [split; [constructor | done] |].
  destruct vs as [|v' vs]; [split; [repeat constructor | done] |].
  cbn [vwf]. destruct (bool_decide (valueLe v v')) eqn:Hle.
  - apply bool_decide_eq_true_1 in Hle. rewrite IH. split.
    + intros Hs. constructor; [done | by constructor].
    + by intros [Hs _]%Sorted_inv.
  - apply bool_decide_eq_false_1 in Hle. split; [done |].
    intros [_ Hhd]%Sorted_inv. by apply HdRel_inv in Hhd.
Qed.

(** The null-page flags of a column, read row group by row group. *)
Lemma nullPagesOf_app (n i j : nat) (l1 l2 : list ColumnIndex) :
  nullPagesOf n i j (l1 ++ l2)
  = nullPagesOf n i j l1 ++ nullPagesOf n i (j + length l1) l2.
Proof.
  revert j. induction l1 as [|c l1 IH]; intros j; simpl.
  - by rewrite Nat.add_0_r.
  - rewrite IH, <- app_assoc. do 3 f_equal. lia.
Qed.

Lemma nullPagesOf_shift (n i j : nat) (l : list ColumnIndex) :
  nullPagesOf n i (j + n) l = nullPagesOf n i j l.
Proof.
  revert j. induction l as [|c l IH]; intros j; simpl; [done |].
  replace (S (j + n)) with (S j + n)%nat by lia. rewrite IH.
  replace ((j + n) mod n)%nat with (j mod n)%nat; [done |].
  by rewrite <- (Nat.Div0.mod_add j 1 n), Nat.mul_1_l.
Qed.

Lemma nullPagesOf_block (n i j : nat) (g : list ColumnIndex) :
  (j + length g <= n)%nat ->
  nullPagesOf n i j g
  = if decide (j <= i)%nat then from_option NullPages [] (g !! (i - j)%nat)
    else [].
Proof.
  revert j. induction g as [|c g IH]; intros j Hlen; simpl in *.
  { by destruct (decide _). }
  rewrite Nat.mod_small by lia. rewrite IH by lia.
  destruct (Nat.eqb_spec j i) as [-> | Hne].
  - rewrite Nat.sub_diag. simpl.
    rewrite decide_False by lia. rewrite decide_True by lia.
    by rewrite app_nil_r.
  - destruct (decide (S j <= i)%nat) as [Hlt|Hge].
    + rewrite decide_True by lia.
      replace (i - j)%nat with (S (i - S j)) by lia. done.
    + by rewrite decide_False by lia.
Qed.

Lemma nullPagesOf_file (n i : nat) (rgs : list RowGroup) :
  (i < n)%nat ->
  Forall (fun rg => length (ColumnChunks rg) = n) rgs ->
  nullPagesOf n i O (rg ← rgs; Index <$> ColumnChunks rg)
  = rg ← rgs;
    from_option (fun cc => NullPages (Index cc)) [] (ColumnChunks rg !! i).
Proof.
  intros Hi Hall. induction Hall as [|rg rgs Hrg _ IH]; csimpl; [done |].
  rewrite nullPagesOf_app, length_fmap, Hrg.
  rewrite (nullPagesOf_shift n i 0), IH. f_equal.
  rewrite nullPagesOf_block by (rewrite length_fmap; lia).
  rewrite decide_True by lia. rewrite Nat.sub_0_r, list_lookup_fmap.
  by destruct (ColumnChunks rg !! i).
Qed.

Lemma existsb_negb (l : list bool) : existsb negb l = true <-> false ∈ l.
Proof.
  induction l as [|b l IH]; simpl.
  - split; [done | by intros ?%elem_of_nil].
  - rewrite orb_true_iff, IH, elem_of_cons. destruct b; simpl; split;
      intros [?|?]; auto; done.
Qed.

(** X9.  On a file whose row groups have a chunk for every column,
    [hasNoNullColumns] returns nil exactly when every column has, in
    some row group, a page that is not flagged as a page of nulls: the
    walk over the flat list of column indexes modulo the number of
    columns reads every column in every row group. *)
Theorem hasNoNullColumns_iff (pf : File) :
  wellFormed pf ->
  hasNoNullColumns pf = None
  <-> forall i, (i < NumColumns pf)%nat ->
        exists rg cc,
          rg ∈ RowGroups pf /\ ColumnChunks rg !! i = Some cc
          /\ false ∈ NullPages (Index cc).
Proof.
  intros Hwf. unfold hasNoNullColumns, ColumnIndexes.
  rewrite firstError_None_iff, Forall_forall.
  split.
  - intros Hall i Hi.
    assert (Hin : i ∈ seq 0 (NumColumns pf)) by (apply elem_of_seq; lia).
    specialize (Hall i Hin). simpl in Hall.
    rewrite nullPagesOf_file in Hall by done.
    destruct (existsb negb _) eqn:Hex; [|done].
    apply existsb_negb, list_elem_of_bind in Hex as (rg & Hfalse & Hrg).
    destruct (ColumnChunks rg !! i) as [cc|] eqn:Hcc; simpl in Hfalse;
      [|by apply elem_of_nil in Hfalse].
    by exists rg, cc.
  - intros Hall i Hi. apply elem_of_seq in Hi.
    destruct (Hall i ltac:(lia)) as (rg & cc & Hrg & Hcc & Hfalse).
    rewrite nullPagesOf_file by (done || lia).
    assert (Hex : existsb negb
                    (rg ← RowGroups pf;
                     from_option (fun cc => NullPages (Index cc)) []
                       (ColumnChunks rg !! i)) = true).
    { apply existsb_negb, list_elem_of_bind. exists rg.
      by rewrite Hcc. }
    by rewrite Hex.
Qed.

(** X10.  A file that has a column and no row group does not pass
    [hasNoNullColumns]: its first column is reported as having only
    null pages, though it has no page at all. *)
Theorem hasNoNullColumns_without_row_groups (pf : File) :
  Schema pf <> [] ->
  RowGroups pf = [] ->
  hasNoNullColumns pf = Some (Errorf "column 0 has only null pages").
Proof.
  intros Hschema Hrgs. unfold hasNoNullColumns, ColumnIndexes, NumColumns.
  rewrite Hrgs. destruct (Schema pf) as [|c cs]; [done |]. reflexivity.
Qed.

Lemma firstError_zip_seq (P : ColumnIndex -> Prop)
  (f : nat * ColumnIndex -> option error) (start : nat)
  (l : list ColumnIndex) :
  (forall j c, f (j, c) = None <-> P c) ->
  firstError f (zip (seq start (length l)) l) = None <-> Forall P l.
Proof.
  intros Hf. revert start. induction l as [|c l IH]; intros start; simpl.
  - split; [constructor | done].
  - rewrite Forall_cons, <- (IH (S start)), <- (Hf start c).
    destruct (f (start, c)); [|tauto]. split; [done | by intros [? _]].
Qed.

(** X11.  [hasExpectedIndexes] returns nil exactly when the schema has
    the label-index column and every column chunk of every row group
    carries at least one lower and one upper bound; a chunk without
    pages makes it fail. *)
Theorem hasExpectedIndexes_iff (pf : File) :
  hasExpectedIndexes pf = None
  <-> is_Some (SchemaLookup pf LabelIndexColumn)
      /\ Forall (fun cidx => MinValues cidx <> [] /\ MaxValues cidx <> [])
           (ColumnIndexes pf).
Proof.
  unfold hasExpectedIndexes.
  destruct (SchemaLookup pf LabelIndexColumn) as [lc|].
  2: { split; [done | by intros [[? ?] _]]. }
  rewrite (firstError_zip_seq
             (fun cidx => MinValues cidx <> [] /\ MaxValues cidx <> [])).
  - split; [by split | by intros [_ ?]].
  - intros j c. simpl.
    destruct (MinValues c), (MaxValues c); split; try done;
      intros [? ?]; done.
Qed.

(** X12.  [nameColumnPageBoundsAreAscending] returns nil exactly when
    the file has the column of the metric name and, in every row group,
    the chunk of that column has at most one page or is indexed as
    ascending: a column of one page passes whatever its values. *)
Theorem bounds_check_iff (pf : File) :
  nameColumnPageBoundsAreAscending pf = None
  <-> exists lc,
        SchemaLookup pf (LabelNameToColumn Labels.MetricName) = Some lc
        /\ Forall (fun rg =>
                     exists cc,
                       ColumnChunks rg !! lc = Some cc
                       /\ ((NumPages (Index cc) <= 1)%nat
                           \/ IsAscending (Index cc) = true))
             (RowGroups pf).
Proof.
  unfold nameColumnPageBoundsAreAscending.
  destruct (SchemaLookup pf _) as [lc|].
  2: { split; [done | by intros (? & ? & _)]. }
  rewrite firstError_None_iff. split.
  - intros Hall. exists lc. split; [done |].
    eapply Forall_impl; [exact Hall |]. intros rg. simpl.
    destruct (ColumnChunks rg !! lc) as [cc|]; [|done].
    destruct (IsAscending (Index cc)) eqn:Hasc; simpl.
    + intros _. exists cc. split; [done | by right].
    + destruct (bool_decide_reflect (1 < NumPages (Index cc))%nat);
        [done |]. intros _. exists cc. split; [done |]. left. lia.
  - intros (lc' & [= <-] & Hall).
    eapply Forall_impl; [exact Hall |]. intros rg (cc & -> & Hcc). simpl.
    destruct (IsAscending (Index cc)); [done |]. simpl.
    destruct Hcc as [Hone|?]; [|done].
    by rewrite bool_decide_eq_false_2 by lia.
Qed.

(** X13.  The label sets the test makes for two indexes are the same
    only if the indexes are, and they carry the same metric name
    exactly when the indexes agree on their tens: the series of the
    test are all distinct, ten to a metric name. *)
Theorem synthetic_series_are_distinct (i j : nat) :
  (Labels.Equal (seriesLabels i) (seriesLabels j) = true <-> i = j)
  /\ (Labels.Lookup (seriesLabels i) Labels.MetricName
      = Labels.Lookup (seriesLabels j) Labels.MetricName
      <-> (i / 10 = j / 10)%nat).
Proof.
  split.
  - split; [|intros ->; apply HeadFacts.Equal_refl].
    intros Heq%HeadFacts.Equal_eq. by apply HeadFacts.seriesLabels_inj.
  - rewrite !HeadFacts.seriesLabels_sorted. simpl. split.
    + intros [= H%DecimalFacts.itoa_inj]. done.
    + by intros ->.
Qed.

End TestCheckFacts.

(** ** The properties at the small instances *)

Lemma setupBucket_backend_witness :
  setupBucket testExternals
    {| storage := "filesystem"; prefix := ""; filesystemDirectory := "/data";
       s3Bucket := "blocks"; s3Endpoint := "s3.local"; s3AccessKey := "k";
       s3SecretKey := "s"; s3Insecure := true; retries := 7 |}
  = setupBucket testExternals (testBucketOpts "filesystem").
Proof.
  destruct (setupBucket_reads_its_backend_only testExternals
              (testBucketOpts "filesystem")
              {| storage := "filesystem"; prefix := "";
                 filesystemDirectory := "/data";
                 s3Bucket := "blocks"; s3Endpoint := "s3.local";
                 s3AccessKey := "k"; s3SecretKey := "s"; s3Insecure := true;
                 retries := 7 |} eq_refl eq_refl) as [Hfs _].
  apply Hfs; reflexivity.
Defined.

Lemma setupTracing_checks_witness :
  setupTracing testTracing Background (testTracingOpts "jaeger" "ALWAYS")
    testTracingSt
  = (Some (Errorf "invalid exporter type jaeger"), testTracingSt)
  /\ setupTracing testTracing Background (testTracingOpts "STDOUT" "always")
       testTracingSt
     = (Some (Errorf "invalid sampling type always"),
        Build_TracingSt testTracing 1%nat None [CallStdoutNew]).
Proof.
  destruct (setupTracing_checks_exporter_first testTracing Background
              (testTracingOpts "jaeger" "ALWAYS") testTracingSt) as [H1 _].
  destruct (setupTracing_checks_exporter_first testTracing Background
              (testTracingOpts "STDOUT" "always") testTracingSt) as [_ H2].
  split.
  - apply H1. apply (bool_decide_unpack _). vm_compute. exact I.
  - refine (proj1 (H2 _ "stdout" eq_refl eq_refl _)).
    apply (bool_decide_unpack _). vm_compute. exact I.
Defined.

Lemma setupTracing_unused_witness :
  setupTracing testTracing Background
    (withSampling 5 "http://localhost:14268" (testTracingOpts "STDOUT" "NEVER"))
  = setupTracing testTracing Background (testTracingOpts "STDOUT" "NEVER").
Proof.
  destruct (setupTracing_unused_options testTracing Background
              (testTracingOpts "STDOUT" "NEVER") 5 "") as [H _].
  apply H. discriminate.
Defined.

Lemma hasNoNullColumns_witness :
  MoreChecks.hasNoNullColumns testNullFile = None
  <-> forall i, (i < MoreChecks.NumColumns testNullFile)%nat ->
        exists rg cc,
          rg ∈ Parquet.RowGroups testNullFile
          /\ Parquet.ColumnChunks rg !! i = Some cc
          /\ false ∈ Parquet.NullPages (Parquet.Index cc).
Proof.
  apply (TestCheckFacts.hasNoNullColumns_iff testNullFile).
  repeat constructor.
Defined.

Lemma hasNoNullColumns_empty_witness :
  MoreChecks.hasNoNullColumns testEmptyFile
  = Some (Errorf "column 0 has only null pages").
Proof.
  apply (TestCheckFacts.hasNoNullColumns_without_row_groups testEmptyFile).
  - discriminate.
  - reflexivity.
Defined.

Example hasNoNullColumns_null_column :
  MoreChecks.hasNoNullColumns testNullFile
  = Some (Errorf "column 1 has only null pages").
Proof. reflexivity. Qed.

Example bounds_check_one_page :
  ConvertTest.nameColumnPageBoundsAreAscending testNameFile = None
  /\ is_Some (ConvertTest.nameColumnValuesAreIncreasing 170 testNameFile).
Proof. split; [reflexivity | by eexists]. Qed.
